(** * Kim: the field/options model and the pipeline engine

  A shallow embedding of [kim/field.py], [kim/pipelines/base.py] and
  [kim/pipelines/string.py], with the statements of the specification
  that concern them.

  Python values are a small universe [value]; objects mutated in place
  (the session, the output target) are threaded explicitly; a raised
  exception is a constructor of [exn]. *)

From Stdlib Require Import ZArith Ascii String List Bool Lia.
From stdpp Require Import base option gmap strings.
Import ListNotations.

Local Open Scope string_scope.
Set Warnings "-register-all".

(** ** Python values *)

Module Py.

(** The values that flow through a pipeline: [None], booleans, integers,
    text, lists, mappings with text keys, and attribute-bearing objects
    (identified by [ident], as Python compares them by identity). *)
Inductive value : Type :=
| VNone
| VBool (b : bool)
| VInt (n : Z)
| VStr (s : string)
| VList (items : list value)
| VDict (items : list (string * value))
| VObj (ident : nat) (attrs : list (string * value)).

(** [x is None] *)
Definition is_none (v : value) : bool :=
  match v with VNone => true | _ => false end.

(** [d.get(k)] on the items of a mapping or of an attribute table. *)
Fixpoint assoc_get (k : string) (kvs : list (string * value)) : option value :=
  match kvs with
  | [] => None
  | (k', v) :: rest => if String.eqb k k' then Some v else assoc_get k rest
  end.

(** [d[k] = v]: replace the binding in place, or append a new one. *)
Fixpoint assoc_set (k : string) (v : value) (kvs : list (string * value))
  : list (string * value) :=
  match kvs with
  | [] => [(k, v)]
  | (k', v') :: rest =>
      if String.eqb k k' then (k, v) :: rest else (k', v') :: assoc_set k v rest
  end.

(** Python's [==] on these values. [bool] is a subclass of [int], so
    [True == 1]; mappings compare by content regardless of order; plain
    objects compare by identity. *)
Fixpoint py_eq (a b : value) {struct a} : bool :=
  match a, b with
  | VNone, VNone => true
  | VBool x, VBool y => Bool.eqb x y
  | VBool x, VInt y => Z.eqb (Z.b2z x) y
  | VInt x, VBool y => Z.eqb x (Z.b2z y)
  | VInt x, VInt y => Z.eqb x y
  | VStr x, VStr y => String.eqb x y
  | VList xs, VList ys =>
      (fix all2 (xs : list value) (ys : list value) {struct xs} : bool :=
         match xs, ys with
         | [], [] => true
         | x :: xs', y :: ys' => py_eq x y && all2 xs' ys'
         | _, _ => false
         end) xs ys
  | VDict xs, VDict ys =>
      Nat.eqb (length xs) (length ys) &&
      (fix sub (xs : list (string * value)) {struct xs} : bool :=
         match xs with
         | [] => true
         | (k, x) :: xs' =>
             match assoc_get k ys with
             | Some y => py_eq x y && sub xs'
             | None => false
             end
         end) xs
  | VObj i _, VObj j _ => Nat.eqb i j
  | _, _ => false
  end.

(** [x in xs] for a list [xs]. *)
Definition py_in (x : value) (xs : list value) : bool :=
  existsb (py_eq x) xs.

(** Truthiness of a name-like value ([None] or text): [None] and the
    empty text are false. *)
Definition truthy (o : option string) : bool :=
  match o with
  | Some s => negb (String.eqb s "")
  | None => false
  end.

(** [a or b] on name-like values. *)
Definition py_or (a b : option string) : option string :=
  if truthy a then a else b.

End Py.

(** ** kim/exception.py *)

Module KimException.

(** Modelled from the spec: [kim/exception.py] is not among the sources.
    The spec separates configuration errors ([FieldError], and
    [FieldOptsError] raised by option validation), the validation signal
    ([FieldInvalid], carrying a message and the offending field) and the
    pipeline-control signal ([StopPipelineExecution]). The remaining
    constructors are Python's built-in exceptions; the messages of
    [IndexError] and [ValueError] differ between Python versions and are
    not represented. [F] is the type of fields. *)
Inductive exn (F : Type) : Type :=
| StopPipelineExecution (msg : string)
| FieldError (msg : string)
| FieldOptsError (msg : string)
| FieldInvalid (message : string) (field : F)
| AttributeError (msg : string)
| TypeError (msg : string)
| KeyError (key : string)
| IndexError
| ValueError.

Arguments StopPipelineExecution {F} msg.
Arguments FieldError {F} msg.
Arguments FieldOptsError {F} msg.
Arguments FieldInvalid {F} message field.
Arguments AttributeError {F} msg.
Arguments TypeError {F} msg.
Arguments KeyError {F} key.
Arguments IndexError {F}.
Arguments ValueError {F}.

(** A computation that returns or raises. *)
Inductive result (E A : Type) : Type :=
| Ok (a : A)
| Raise (e : E).

Arguments Ok {E A} a.
Arguments Raise {E A} e.

Definition bind {E A B : Type} (m : result E A) (k : A -> result E B) : result E B :=
  match m with
  | Ok a => k a
  | Raise e => Raise e
  end.

End KimException.

Import Py KimException.

Notation "x <- m ;; k" := (bind m (fun x => k))
  (at level 100, m at next level, right associativity).

(** ** kim/utils.py *)

Module KimUtils.

(** Modelled from the spec: [kim/utils.py] is not among the sources.
    [attr_or_key(obj, name)] extracts the value for [name] from a mapping
    (by key) or from an attribute-bearing object (by attribute); what is
    absent reads as [None]. *)
Definition attr_or_key (obj : value) (name : string) : value :=
  match obj with
  | VDict items => from_option id VNone (assoc_get name items)
  | VObj _ attrs => from_option id VNone (assoc_get name attrs)
  | _ => VNone
  end.

End KimUtils.

(** ** kim/mapper.py: the registry interface *)

Module KimMapper.

(** Modelled from the spec: [kim/mapper.py] is not among the sources. A
    mapper class is known by its name; the process-wide registry maps
    names to mapper classes. *)
Record mapper_class : Type := { mapper_name : string }.

(** The first argument of [Nested]: the name of a mapper, a mapper class,
    or any other object. *)
Inductive mapper_ref : Type :=
| ByName (name : string)
| ByClass (cls : mapper_class)
| ByOther (obj : value).

(** Modelled from the spec: [resolve(name_or_object)]; a name that is not
    registered, or an object that is not a valid mapper, raises a
    configuration error. *)
Definition get_mapper_from_registry {F : Type}
    (MAPPER_REGISTRY : gmap string mapper_class) (mapper : mapper_ref)
  : result (exn F) mapper_class :=
  match mapper with
  | ByClass cls => Ok cls
  | ByName n =>
      match MAPPER_REGISTRY !! n with
      | Some cls => Ok cls
      | None => Raise (FieldError (n ++ " is not a valid Mapper"))
      end
  | ByOther _ => Raise (FieldError "not a valid Mapper")
  end.

(** What [Nested.get_mapper] hands back: the class itself, or an instance
    built from the keyword arguments. *)
Inductive mapper_obj : Type :=
| MapperClass (cls : mapper_class)
| MapperInstance (cls : mapper_class) (mapper_params : list (string * value)).

End KimMapper.

(** ** kim/field.py *)

Module KimField.

Import KimMapper.

Definition DEFAULT_ERROR_MSGS : gmap string string :=
  list_to_map
    [ ("required", "This is a required field");
      ("type_error", "Invalid type");
      ("not_found", "{name} not found");
      ("none_not_allowed", "This field cannot be null");
      ("invalid_choice", "invalid choice");
      ("duplicates", "duplicates found") ].

(** The keyword arguments of a field constructor; [None] is a keyword
    that was not passed. *)
Record kwargs : Type := {
  kw__is_wrapped : option bool;
  kw_name : option string;
  kw_attribute_name : option string;
  kw_source : option string;
  kw_error_msgs : option (gmap string string);
  kw_required : option bool;
  kw_default : option value;
  kw_null_default : option value;
  kw_allow_none : option bool;
  kw_read_only : option bool;
  kw_choices : option (list value)
}.

(** [opts.pop(key, fallback)] *)
Definition pop {A : Type} (o : option A) (fallback : A) : A :=
  match o with
  | Some a => a
  | None => fallback
  end.

(** The attributes of a [FieldOpts] instance. [choices] is the documented
    array of valid values, [None] when not configured. The raw copy
    [_opts] and the [extra_marshal_pipes]/[extra_serialize_pipes] tables
    are read by no pipe below and are left out. *)
Record FieldOpts : Type := {
  _is_wrapped : bool;
  name : option string;
  attribute_name : option string;
  source : option string;
  error_msgs : gmap string string;
  required : bool;
  default : value;
  null_default : value;
  allow_none : bool;
  read_only : bool;
  choices : option (list value)
}.

Definition extra_error_msgs : gmap string string := ∅.

Definition with_names (self : FieldOpts) (n a s : option string) : FieldOpts :=
  {| _is_wrapped := _is_wrapped self; name := n; attribute_name := a; source := s;
     error_msgs := error_msgs self; required := required self;
     default := default self; null_default := null_default self;
     allow_none := allow_none self; read_only := read_only self;
     choices := choices self |}.

Definition with__is_wrapped (self : FieldOpts) (b : bool) : FieldOpts :=
  {| _is_wrapped := b; name := name self; attribute_name := attribute_name self;
     source := source self;
     error_msgs := error_msgs self; required := required self;
     default := default self; null_default := null_default self;
     allow_none := allow_none self; read_only := read_only self;
     choices := choices self |}.

Definition with_read_only (self : FieldOpts) (b : bool) : FieldOpts :=
  {| _is_wrapped := _is_wrapped self; name := name self;
     attribute_name := attribute_name self; source := source self;
     error_msgs := error_msgs self; required := required self;
     default := default self; null_default := null_default self;
     allow_none := allow_none self; read_only := b;
     choices := choices self |}.

(** [FieldOpts.set_name] *)
Definition set_name (self : FieldOpts) (name' attribute_name' source' : option string)
  : FieldOpts :=
  let a := py_or (attribute_name self) attribute_name' in
  let n := py_or (py_or (name self) name') a in
  let s := py_or (py_or (source self) source') n in
  with_names self n a s.

(** [FieldOpts.get_name] *)
Definition get_name (self : FieldOpts) : option string := name self.

(** The attribute assignments of [FieldOpts.__init__], the three names
    still at their initial [None]. *)
Definition FieldOpts_attrs (opts : kwargs) : FieldOpts :=
  {| _is_wrapped := pop (kw__is_wrapped opts) false;
     name := None; attribute_name := None; source := None;
     error_msgs := pop (kw_error_msgs opts) extra_error_msgs ∪ DEFAULT_ERROR_MSGS;
     required := pop (kw_required opts) true;
     default := pop (kw_default opts) VNone;
     null_default := pop (kw_null_default opts) VNone;
     allow_none := pop (kw_allow_none opts) true;
     read_only := pop (kw_read_only opts) false;
     choices := kw_choices opts |}.

(** [FieldOpts.validate]: nothing to check in the base class. *)
Definition validate {F : Type} (self : FieldOpts) : result (exn F) unit := Ok tt.

(** [FieldOpts.__init__] *)
Definition FieldOpts__init__ {F : Type} (opts : kwargs) : result (exn F) FieldOpts :=
  let self :=
    set_name (FieldOpts_attrs opts)
             (kw_name opts) (kw_attribute_name opts) (kw_source opts) in
  _ <- validate self ;;
  Ok self.

(** The field classes that use the plain [FieldOpts]. *)
Inductive field_class : Type :=
| ClsField | ClsString | ClsInteger | ClsDateTime | ClsDate.

(** The extra attributes of [NestedFieldOpts]. The callables
    [collection_class] and [getter] are kept as opaque tags. *)
Record NestedOpts : Type := {
  mapper : mapper_ref;
  role : string;
  collection_class : string;
  getter : value;
  allow_updates : bool;
  allow_updates_in_place : bool;
  allow_partial_updates : bool;
  allow_create : bool
}.

(** A field with its options object: [Field], [String], ... carry a
    [FieldOpts]; [Nested], [Collection] and [Static] carry the extended
    options of their [opts_class]. *)
Inductive Field : Type :=
| FPlain (cls : field_class) (opts : FieldOpts)
| FNested (opts : FieldOpts) (nopts : NestedOpts)
| FCollection (opts : FieldOpts) (field : Field) (unique_on : option string)
| FStatic (opts : FieldOpts) (value : value).

Definition opts (self : Field) : FieldOpts :=
  match self with
  | FPlain _ o | FNested o _ | FCollection o _ _ | FStatic o _ => o
  end.

Definition with_opts (self : Field) (o : FieldOpts) : Field :=
  match self with
  | FPlain c _ => FPlain c o
  | FNested _ n => FNested o n
  | FCollection _ f u => FCollection o f u
  | FStatic _ v => FStatic o v
  end.

(** [self.__class__.__name__] *)
Definition class_name (self : Field) : string :=
  match self with
  | FPlain ClsField _ => "Field"
  | FPlain ClsString _ => "String"
  | FPlain ClsInteger _ => "Integer"
  | FPlain ClsDateTime _ => "DateTime"
  | FPlain ClsDate _ => "Date"
  | FNested _ _ => "Nested"
  | FCollection _ _ _ => "Collection"
  | FStatic _ _ => "Static"
  end.

Definition missing_name (cn : string) : exn Field :=
  FieldError (cn ++ " requires " ++ cn ++ ".name or " ++ cn
              ++ ".attribute_name.  Please provide a `name` or `attribute_name` param to "
              ++ cn).

(** The [Field.name] property. It reads [self.opts.get_name()], which for
    a collection is the [name] property of the wrapped field, and raises
    when the result is [None] or empty. *)
Fixpoint Field_name (self : Field) : result (exn Field) string :=
  field_name <-
    match self with
    | FCollection _ inner _ => n <- Field_name inner ;; Ok (Some n)
    | _ => Ok (get_name (opts self))
    end ;;
  match field_name with
  | Some n => if String.eqb n "" then Raise (missing_name (class_name self)) else Ok n
  | None => Raise (missing_name (class_name self))
  end.

(** [self.opts.set_name(...)], dispatched on the options class:
    [CollectionFieldOpts.set_name] first forwards to the wrapped field's
    options, then names the collection itself. *)
Fixpoint opts_set_name (self : Field) (name' attribute_name' source' : option string)
  : Field :=
  match self with
  | FCollection o inner u =>
      FCollection (set_name o name' attribute_name' source')
                  (opts_set_name inner name' attribute_name' source') u
  | _ => with_opts self (set_name (opts self) name' attribute_name' source')
  end.

(** The [Field.name] setter. *)
Definition Field_set_name (self : Field) (n : option string) : Field :=
  opts_set_name self n None None.

(** *** [str.format] on an error template *)

Definition is_open (c : Ascii.ascii) : bool := Ascii.eqb c "{"%char.

Definition is_close (c : Ascii.ascii) : bool := Ascii.eqb c "}"%char.

(** The characters that make a replacement field more than a plain
    argument: a nested brace, an index or attribute lookup, a conversion,
    a format spec. *)
Definition is_special (c : Ascii.ascii) : bool :=
  Ascii.eqb c "{"%char || Ascii.eqb c "["%char || Ascii.eqb c "]"%char
  || Ascii.eqb c "."%char || Ascii.eqb c "!"%char || Ascii.eqb c ":"%char.

Definition is_digit (c : Ascii.ascii) : bool :=
  Nat.leb 48 (Ascii.nat_of_ascii c) && Nat.leb (Ascii.nat_of_ascii c) 57.

Fixpoint all_digits (s : string) : bool :=
  match s with
  | EmptyString => true
  | String c rest => is_digit c && all_digits rest
  end.

(** A replacement field, read after its opening brace: a plain argument
    closed by a brace, a field the template ends in, or a field with a
    special character before its closing brace. *)
Inductive field_scan : Type :=
| Plain (body : string)
| Unclosed
| Special.

Fixpoint scan_field (s : string) : field_scan :=
  match s with
  | EmptyString => Unclosed
  | String c rest =>
      if is_close c then Plain EmptyString
      else if is_special c then Special
      else
        match scan_field rest with
        | Plain body => Plain (String c body)
        | other => other
        end
  end.

(** What [str.format] makes of a template that begins with a replacement
    field this development does not interpret: a field with a special
    character, whose extent and meaning depend on the Python version and
    on the object at hand, or a positional index too long to be sure it
    fits a machine word. It is given that template, from the opening
    brace of the field on, and the name; it answers with the formatted
    text of all of it, or with the exception raised. *)
Class Renderer : Type :=
  render_rest : string -> string -> result (exn Field) string.

Section WithRenderer.

Context `{Renderer}.

(** A plain replacement field of [template.format(name=n)]: [{name}] is
    the name; an empty or numeric argument finds no positional argument;
    any other argument is a missing keyword. [None] for an index that is
    left to the renderer. *)
Definition format_plain (body n : string) : option (result (exn Field) string) :=
  if String.eqb body "" then Some (Raise IndexError)
  else if all_digits body then
    if Nat.leb (String.length body) 9 then Some (Raise IndexError) else None
  else if String.eqb body "name" then Some (Ok n)
  else Some (Raise (KeyError body)).

(** [template.format(name=n)], read left to right: doubled braces are
    literal braces, a lone closing brace or an unclosed field is a
    [ValueError], every plain field is formatted where it stands, and the
    first exception ends the formatting. [skip] counts the characters of
    the template already consumed as part of a field or of a doubled
    brace. *)
Fixpoint format_from (skip : nat) (template n : string) {struct template}
  : result (exn Field) string :=
  match template with
  | EmptyString => Ok EmptyString
  | String c rest =>
      match skip with
      | S k => format_from k rest n
      | O =>
          if is_open c then
            match rest with
            | EmptyString => Raise ValueError
            | String c' _ =>
                if is_open c' then
                  s <- format_from 1 rest n ;; Ok (String c s)
                else
                  match scan_field rest with
                  | Unclosed => Raise ValueError
                  | Special => render_rest template n
                  | Plain body =>
                      match format_plain body n with
                      | None => render_rest template n
                      | Some formatted =>
                          text <- formatted ;;
                          s <- format_from (S (String.length body)) rest n ;;
                          Ok (text ++ s)
                      end
                  end
            end
          else if is_close c then
            match rest with
            | EmptyString => Raise ValueError
            | String c' _ =>
                if is_close c' then
                  s <- format_from 1 rest n ;; Ok (String c s)
                else Raise ValueError
            end
          else
            s <- format_from 0 rest n ;; Ok (String c s)
      end
  end.

Definition format_name (template n : string) : result (exn Field) string :=
  format_from 0 template n.

(** [Field.get_error] *)
Definition get_error (self : Field) (error_type : string) : result (exn Field) string :=
  n <- Field_name self ;;
  match error_msgs (opts self) !! error_type with
  | Some template => format_name template n
  | None => Raise (KeyError error_type)
  end.

(** [Field.invalid]: the exception that leaves the call. *)
Definition invalid (self : Field) (error_type : string) : exn Field :=
  match get_error self error_type with
  | Ok message => FieldInvalid message self
  | Raise e => e
  end.

End WithRenderer.

(** [Field.__init__]: an options error becomes a field error. The
    declaration counter stamped by [set_creation_order] orders fields
    inside a mapper and is not represented. *)
Definition Field__init__ (cn : string) (built : result (exn Field) Field)
  : result (exn Field) Field :=
  match built with
  | Raise (FieldOptsError message) =>
      Raise (FieldError (cn ++ " field has invalid options: " ++ message))
  | r => r
  end.

(** Constructing a [Field], [String], ... from its keyword arguments. *)
Definition new_field (cls : field_class) (field_opts : kwargs) : result (exn Field) Field :=
  Field__init__ (class_name (FPlain cls (FieldOpts_attrs field_opts)))
    (o <- FieldOpts__init__ field_opts ;; Ok (FPlain cls o)).

(** *** Nested *)

(** The keyword arguments [NestedFieldOpts.__init__] pops for itself. *)
Record nested_kwargs : Type := {
  kw_role : option string;
  kw_collection_class : option string;
  kw_getter : option value;
  kw_allow_updates : option bool;
  kw_allow_updates_in_place : option bool;
  kw_allow_partial_updates : option bool;
  kw_allow_create : option bool
}.

(** [NestedFieldOpts.__init__]: the mapper reference is stored as given. *)
Definition NestedFieldOpts__init__ (mapper_or_mapper_name : mapper_ref)
    (nkw : nested_kwargs) (kw : kwargs)
  : result (exn Field) (FieldOpts * NestedOpts) :=
  let n :=
    {| mapper := mapper_or_mapper_name;
       role := pop (kw_role nkw) "__default__";
       collection_class := pop (kw_collection_class nkw) "list";
       getter := pop (kw_getter nkw) VNone;
       allow_updates := pop (kw_allow_updates nkw) false;
       allow_updates_in_place := pop (kw_allow_updates_in_place nkw) false;
       allow_partial_updates := pop (kw_allow_partial_updates nkw) false;
       allow_create := pop (kw_allow_create nkw) false |} in
  o <- FieldOpts__init__ kw ;;
  Ok (o, n).

(** Constructing a [Nested] field. *)
Definition Nested (mapper_or_mapper_name : mapper_ref)
    (nkw : nested_kwargs) (kw : kwargs) : result (exn Field) Field :=
  Field__init__ "Nested"
    (on <- NestedFieldOpts__init__ mapper_or_mapper_name nkw kw ;;
     Ok (FNested (fst on) (snd on))).

(** [Nested.get_mapper], against the registry as it stands at the call. *)
Definition get_mapper (MAPPER_REGISTRY : gmap string mapper_class) (self : Field)
    (as_class : bool) (mapper_params : list (string * value))
  : result (exn Field) mapper_obj :=
  match self with
  | FNested _ n =>
      m <- get_mapper_from_registry MAPPER_REGISTRY (mapper n) ;;
      if as_class then Ok (MapperClass m) else Ok (MapperInstance m mapper_params)
  | _ => Raise (AttributeError "get_mapper")
  end.

(** *** Collection *)

(** The first positional argument of [Collection]: a field instance, or
    any other Python value. *)
Inductive pyarg : Type :=
| ArgField (f : Field)
| ArgValue (v : value).

(** [obj.attr] on a value that is not a field: only attribute-bearing
    objects have attributes of that name. *)
Definition getattr (v : value) (attr : string) : result (exn Field) value :=
  match v with
  | VObj _ attrs =>
      match assoc_get attr attrs with
      | Some x => Ok x
      | None => Raise (AttributeError attr)
      end
  | _ => Raise (AttributeError attr)
  end.

(** [self.field.name] for whatever was passed as [field]. *)
Definition arg_name (field : pyarg) : result (exn Field) unit :=
  match field with
  | ArgField f => _ <- Field_name f ;; Ok tt
  | ArgValue v => _ <- getattr v "name" ;; Ok tt
  end.

(** [CollectionFieldOpts.validate] *)
Definition Collection_validate (field : pyarg) : result (exn Field) unit :=
  match field with
  | ArgField _ => Ok tt
  | ArgValue _ =>
      Raise (FieldOptsError
               "Collection requires a valid Field instance as its first argument")
  end.

(** [CollectionFieldOpts.__init__]. The wrapped field is mutated in place
    ([_is_wrapped], then the names forwarded by [set_name]); the result
    carries it in its final state. *)
Definition CollectionFieldOpts__init__ (field : pyarg) (unique_on : option string)
    (kw : kwargs) : result (exn Field) Field :=
  (* try: self.field.name / except FieldError: pass / else: raise FieldError *)
  _ <- match arg_name field with
       | Raise (FieldError _) => Ok tt
       | Raise e => Raise e
       | Ok _ =>
           Raise (FieldError
                    "name/attribute_name/source should not be passed to a wrapped field.")
       end ;;
  (* self.field.opts._is_wrapped = True *)
  wrapped <- match field with
             | ArgField f => Ok (with_opts f (with__is_wrapped (opts f) true))
             | ArgValue v => _ <- getattr v "opts" ;; Raise (AttributeError "_is_wrapped")
             end ;;
  (* the base __init__, with set_name and validate overridden *)
  let self :=
    opts_set_name (FCollection (FieldOpts_attrs kw) wrapped unique_on)
                  (kw_name kw) (kw_attribute_name kw) (kw_source kw) in
  _ <- Collection_validate (ArgField wrapped) ;;
  Ok self.

(** Constructing a [Collection] field. *)
Definition Collection (field : pyarg) (unique_on : option string) (kw : kwargs)
  : result (exn Field) Field :=
  Field__init__ "Collection" (CollectionFieldOpts__init__ field unique_on kw).

(** *** Static *)

(** [StaticFieldOpts.__init__] forces [read_only]. *)
Definition Static (v : value) (kw : kwargs) : result (exn Field) Field :=
  Field__init__ "Static"
    (o <- FieldOpts__init__ kw ;; Ok (FStatic (with_read_only o true) v)).

(** No keyword passed. *)
Definition no_kwargs : kwargs :=
  {| kw__is_wrapped := None; kw_name := None; kw_attribute_name := None;
     kw_source := None; kw_error_msgs := None; kw_required := None;
     kw_default := None; kw_null_default := None; kw_allow_none := None;
     kw_read_only := None; kw_choices := None |}.

Definition no_nested_kwargs : nested_kwargs :=
  {| kw_role := None; kw_collection_class := None; kw_getter := None;
     kw_allow_updates := None; kw_allow_updates_in_place := None;
     kw_allow_partial_updates := None; kw_allow_create := None |}.

End KimField.

(** ** kim/pipelines/base.py *)

Module KimPipelinesBase.

Import KimField KimUtils.

(** Modelled from the spec: the mapper-level session is built by the
    mapper, outside the sources; it is the shared context holding the
    mapper, the full raw input and the full output target of one run. *)
Record MapperSession : Type := {
  ms_mapper : value;
  ms_data : value;
  ms_output : value
}.

(** [Session]. [output] is a reference to the output target shared with
    the mapper session; the embedding threads the state of that one
    object through [output], so the [output] of the last session is what
    the caller observes on [mapper_session.output] afterwards. *)
Inductive Session : Type := mkSession {
  field : Field;
  data : value;
  output : value;
  parent : option Session;
  mapper_session : MapperSession
}.

(** The [Session.mapper] property. *)
Definition Session_mapper (self : Session) : value := ms_mapper (mapper_session self).

(** [session.data = v] *)
Definition with_data (session : Session) (v : value) : Session :=
  mkSession (field session) v (output session) (parent session) (mapper_session session).

(** An in-place update of the object [session.output] refers to. *)
Definition with_output (session : Session) (o : value) : Session :=
  mkSession (field session) (data session) o (parent session) (mapper_session session).

(** A call on a session returns a value or raises, and leaves the session
    in some state either way. *)
Inductive outcome : Type :=
| Returns (v : value) (session : Session)
| Raises (e : exn Field) (session : Session).

(** [Pipe] *)
Record Pipe : Type := {
  func : Session -> outcome;
  run_if_none : bool
}.

(** [Pipe.run] *)
Definition Pipe_run (self : Pipe) (session : Session) : outcome :=
  if negb (is_none (data session)) then func self session
  else if is_none (data session) && run_if_none self then func self session
  else Returns (data session) session.

(** [Pipe.__call__] *)
Definition Pipe__call__ (self : Pipe) (session : Session) : outcome :=
  Pipe_run self session.

(** The [pipe] decorator: the decorated function builds a [Pipe] around
    the original one and calls it. *)
Definition pipe (run_if_none' : bool) (pipe_func : Session -> outcome)
  : Session -> outcome :=
  fun session => Pipe__call__ {| func := pipe_func; run_if_none := run_if_none' |} session.

(** [Pipeline]: the four pipe groups of a pipeline class. *)
Record Pipeline : Type := {
  input_pipes : list (Session -> outcome);
  validation_pipes : list (Session -> outcome);
  process_pipes : list (Session -> outcome);
  output_pipes : list (Session -> outcome)
}.

(** [chain(...)] over the four groups. *)
Definition chain (self : Pipeline) : list (Session -> outcome) :=
  input_pipes self ++ validation_pipes self ++ process_pipes self ++ output_pipes self.

(** The [for pipe in ...: pipe(session)] loop; the value a pipe returns
    is dropped. *)
Fixpoint run_pipes (pipes : list (Session -> outcome)) (session : Session) : outcome :=
  match pipes with
  | [] => Returns VNone session
  | p :: rest =>
      match p session with
      | Returns _ session' => run_pipes rest session'
      | Raises e session' => Raises e session'
      end
  end.

(** How [Pipeline.run] ends: it returns [session.output], or an exception
    leaves it; [Raised] also records the state the output target is in at
    that point. *)
Inductive run_result : Type :=
| Returned (out : value)
| Raised (e : exn Field) (out : value).

(** [Pipeline.run] *)
Definition run (self : Pipeline) (mapper_session' : MapperSession) (field' : Field)
    (parent_session : option Session) : run_result :=
  let session :=
    mkSession field' (ms_data mapper_session') (ms_output mapper_session')
              parent_session mapper_session' in
  match run_pipes (chain self) session with
  | Returns _ session' => Returned (output session')
  | Raises (StopPipelineExecution _) session' => Returned (output session')
  | Raises e session' => Raised e (output session')
  end.

Section WithRenderer.

Context `{Renderer}.

(** [get_data_from_name], before decoration. *)
Definition get_data_from_name_func (session : Session) : outcome :=
  let o := opts (field session) in
  if _is_wrapped o then Returns (data session) session
  else
    match Field_name (field session) with
    | Raise e => Raises e session
    | Ok n =>
        let value := attr_or_key (data session) n in
        if is_none value then
          if required o && is_none (default o) then
            Raises (invalid (field session) "required") session
          else if negb (is_none (default o)) then
            Returns (default o) (with_data session (default o))
          else if negb (allow_none o) then
            Raises (invalid (field session) "none_not_allowed") session
          else Returns value (with_data session value)
        else Returns value (with_data session value)
    end.

Definition get_data_from_name : Session -> outcome := pipe false get_data_from_name_func.

(** [get_field_if_required], before decoration. *)
Definition get_field_if_required_func (session : Session) : outcome :=
  if is_none (data session) then
    let d := default (opts (field session)) in
    Returns d (with_data session d)
  else Returns (data session) session.

Definition get_field_if_required : Session -> outcome :=
  pipe true get_field_if_required_func.

(** [read_only], before decoration. *)
Definition read_only_func (session : Session) : outcome :=
  if KimField.read_only (opts (field session)) then
    Raises (StopPipelineExecution "read_only field") session
  else Returns (data session) session.

Definition read_only : Session -> outcome := pipe false read_only_func.

(** [is_valid_choice], before decoration. *)
Definition is_valid_choice_func (session : Session) : outcome :=
  match choices (opts (field session)) with
  | Some cs =>
      if negb (py_in (data session) cs) then
        Raises (invalid (field session) "invalid_choice") session
      else Returns (data session) session
  | None => Returns (data session) session
  end.

Definition is_valid_choice : Session -> outcome := pipe false is_valid_choice_func.

(** [setattr(obj, name, v)]: only attribute-bearing objects accept it. *)
Definition setattr (obj : value) (name : string) (v : value) : result (exn Field) value :=
  match obj with
  | VObj i attrs => Ok (VObj i (assoc_set name v attrs))
  | _ => Raise (AttributeError name)
  end.

(** [obj[key] = v] for a text key: only mappings accept it. *)
Definition setitem (obj : value) (key : string) (v : value) : result (exn Field) value :=
  match obj with
  | VDict items => Ok (VDict (assoc_set key v items))
  | _ => Raise (TypeError "object does not support item assignment")
  end.

(** [update_output_to_name], before decoration. *)
Definition update_output_to_name_func (session : Session) : outcome :=
  match Field_name (field session) with
  | Raise e => Raises e session
  | Ok n =>
      match setattr (output session) n (data session) with
      | Ok out => Returns VNone (with_output session out)
      | Raise (AttributeError _) =>
          match setitem (output session) n (data session) with
          | Ok out => Returns VNone (with_output session out)
          | Raise (TypeError _) =>
              Raises (FieldError
                        "output does not support attribute or key based set operations")
                     session
          | Raise e => Raises e session
          end
      | Raise e => Raises e session
      end
  end.

Definition update_output_to_name : Session -> outcome :=
  pipe true update_output_to_name_func.

End WithRenderer.

End KimPipelinesBase.

(** ** kim/pipelines/marshaling.py *)

Module KimPipelinesMarshaling.

Import KimField KimPipelinesBase.

Section WithRenderer.

Context `{Renderer}.

(** Modelled from the spec: [kim/pipelines/marshaling.py] is not among the
    sources. The base marshal pipeline extracts the value for
    [field.name] (input), has no validation of its own, short-circuits
    read-only fields (process) and writes the value at [field.name]
    (output). *)
Definition MarshalPipeline : Pipeline :=
  {| input_pipes := [get_data_from_name];
     validation_pipes := [];
     process_pipes := [read_only];
     output_pipes := [update_output_to_name] |}.

End WithRenderer.

End KimPipelinesMarshaling.

(** ** kim/pipelines/string.py *)

Module KimPipelinesString.

Import KimField KimPipelinesBase KimPipelinesMarshaling.

Section WithTextType.

Context `{Renderer}.

(** [six.text_type]: the text of a value, or [None] where the conversion
    raises [ValueError]. *)
Variable text_type : value -> option string.

(** [is_valid_string], before decoration. *)
Definition is_valid_string_func (session : Session) : outcome :=
  match text_type (data session) with
  | Some t => Returns (VStr t) session
  | None => Raises (invalid (field session) "type_error") session
  end.

Definition is_valid_string : Session -> outcome := pipe false is_valid_string_func.

(** [StringMarshalPipeline] *)
Definition StringMarshalPipeline : Pipeline :=
  {| input_pipes := input_pipes MarshalPipeline;
     validation_pipes :=
       [is_valid_string; is_valid_choice] ++ validation_pipes MarshalPipeline;
     process_pipes := process_pipes MarshalPipeline;
     output_pipes := output_pipes MarshalPipeline |}.

End WithTextType.

End KimPipelinesString.

(** ** kim/pipelines/datetime.py (marshal validation) *)

Module KimPipelinesDatetime.

Import KimField KimPipelinesBase KimPipelinesMarshaling.

Section WithParseDate.

Context `{Renderer}.

(** [iso8601.parse_date]: the parsed value, or [None] where it raises
    [ParseError]. *)
Variable parse_date : value -> option value.

(** [is_valid_datetime], before decoration. *)
Definition is_valid_datetime_func (session : Session) : outcome :=
  if negb (is_none (data session)) then
    match parse_date (data session) with
    | Some d => Returns d (with_data session d)
    | None => Raises (invalid (field session) "type_error") session
    end
  else Returns (data session) session.

Definition is_valid_datetime : Session -> outcome := pipe false is_valid_datetime_func.

(** [DateTimeMarshalPipeline] *)
Definition DateTimeMarshalPipeline : Pipeline :=
  {| input_pipes := input_pipes MarshalPipeline;
     validation_pipes :=
       [is_valid_datetime; is_valid_choice] ++ validation_pipes MarshalPipeline;
     process_pipes := process_pipes MarshalPipeline;
     output_pipes := output_pipes MarshalPipeline |}.

End WithParseDate.

End KimPipelinesDatetime.

(** ** kim/field.py: the marshal entry point *)

Module KimFieldMarshal.

Import KimField KimPipelinesBase KimPipelinesMarshaling.
Import KimPipelinesString KimPipelinesDatetime.

Section WithLibraries.

Context `{Renderer}.

Variable text_type : value -> option string.
Variable parse_date : value -> option value.

(** The [marshal_pipeline] class attribute. [Static] inherits the one of
    [Field]; the pipelines of [Integer], [Date], [Nested] and
    [Collection] are defined outside the sources. *)
Definition marshal_pipeline (self : Field) : option Pipeline :=
  match self with
  | FPlain ClsField _ => Some MarshalPipeline
  | FPlain ClsString _ => Some (StringMarshalPipeline text_type)
  | FPlain ClsDateTime _ => Some (DateTimeMarshalPipeline parse_date)
  | FStatic _ _ => Some MarshalPipeline
  | _ => None
  end.

(** [Field.marshal]: build the pipeline for this field and run it. *)
Definition marshal (self : Field) (mapper_session' : MapperSession)
    (parent_session : option Session) : option run_result :=
  match marshal_pipeline self with
  | Some p => Some (run p mapper_session' self parent_session)
  | None => None
  end.

End WithLibraries.

End KimFieldMarshal.

(** * Properties *)

Import KimUtils KimMapper KimField KimPipelinesBase KimPipelinesMarshaling.
Import KimPipelinesString KimPipelinesDatetime KimFieldMarshal.

(** ** Sample configurations and auxiliary notions *)

(** [{'name': 'bob'}] *)
Definition bob : value := VDict [("name", VStr "bob")].

(** The mapper session for marshaling [raw] into a fresh mapping. *)
Definition fresh_session (raw : value) : MapperSession :=
  {| ms_mapper := VNone; ms_data := raw; ms_output := VDict [] |}.

(** The options of a field declared with [name='id'] and the defaults. *)
Definition id_opts : FieldOpts :=
  set_name (FieldOpts_attrs no_kwargs) (Some "id") None None.

(** The session a pipeline starts from. *)
Definition start (f : Field) (ms : MapperSession) : Session :=
  mkSession f (ms_data ms) (ms_output ms) None ms.

(** A read-only field named [id]. *)
Definition read_only_id : Field := FPlain ClsField (with_read_only id_opts true).

(** A required field named [id]. *)
Definition required_id : Field := FPlain ClsField id_opts.

(** A field named [id] with [choices=['a']]. *)
Definition choice_id : Field :=
  FPlain ClsString
    (set_name
       (FieldOpts_attrs
          {| kw__is_wrapped := None; kw_name := None; kw_attribute_name := None;
             kw_source := None; kw_error_msgs := None; kw_required := None;
             kw_default := None; kw_null_default := None; kw_allow_none := None;
             kw_read_only := None; kw_choices := Some [VStr "a"] |})
       (Some "id") None None).

(** When a mapper reference cannot be resolved against a registry. *)
Definition unresolvable (MAPPER_REGISTRY : gmap string mapper_class) (ref : mapper_ref)
  : Prop :=
  match ref with
  | ByName n => MAPPER_REGISTRY !! n = None
  | ByClass _ => False
  | ByOther _ => True
  end.

(** The keywords of [String(name='id', read_only=True, required=False)]. *)
Definition optional_read_only_kwargs : kwargs :=
  {| kw__is_wrapped := None; kw_name := Some "id"; kw_attribute_name := None;
     kw_source := None; kw_error_msgs := None; kw_required := Some false;
     kw_default := None; kw_null_default := None; kw_allow_none := None;
     kw_read_only := Some true; kw_choices := None |}.

Definition optional_read_only_id : Field :=
  FPlain ClsString
    (set_name (FieldOpts_attrs optional_read_only_kwargs) (Some "id") None None).

(** The keywords of [String(name='id', read_only=True)]. *)
Definition read_only_kwargs : kwargs :=
  {| kw__is_wrapped := None; kw_name := Some "id"; kw_attribute_name := None;
     kw_source := None; kw_error_msgs := None; kw_required := None;
     kw_default := None; kw_null_default := None; kw_allow_none := None;
     kw_read_only := Some true; kw_choices := None |}.

Definition read_only_string_id : Field :=
  FPlain ClsString (set_name (FieldOpts_attrs read_only_kwargs) (Some "id") None None).

(** The session an outcome leaves behind. *)
Definition session_of (r : outcome) : Session :=
  match r with
  | Returns _ s => s
  | Raises _ s => s
  end.

(** The keywords of [String(name='id')] and of
    [String(name='id', choices=['2'])]. *)
Definition string_id_kwargs (cs : option (list value)) : kwargs :=
  {| kw__is_wrapped := None; kw_name := Some "id"; kw_attribute_name := None;
     kw_source := None; kw_error_msgs := None; kw_required := None;
     kw_default := None; kw_null_default := None; kw_allow_none := None;
     kw_read_only := None; kw_choices := cs |}.

Definition string_id (cs : option (list value)) : Field :=
  FPlain ClsString (set_name (FieldOpts_attrs (string_id_kwargs cs)) (Some "id") None None).

(** The keywords of [String(source='src')]. *)
Definition source_only_kwargs : kwargs :=
  {| kw__is_wrapped := None; kw_name := None; kw_attribute_name := None;
     kw_source := Some "src"; kw_error_msgs := None; kw_required := None;
     kw_default := None; kw_null_default := None; kw_allow_none := None;
     kw_read_only := None; kw_choices := None |}.

Definition source_only : Field :=
  FPlain ClsString (set_name (FieldOpts_attrs source_only_kwargs) None None (Some "src")).

(** A pipe that leaves the output target as it found it, whether it
    returns or raises. *)
Definition keeps_output (p : Session -> outcome) : Prop :=
  forall s, output (session_of (p s)) = output s.

(** A pipe that leaves the whole session as it found it, whether it
    returns or raises. *)
Definition keeps_session (p : Session -> outcome) : Prop :=
  forall s, session_of (p s) = s.

(** The pipe [p] with the value it returns replaced by [v]. *)
Definition returning (v : value) (p : Session -> outcome) : Session -> outcome :=
  fun s =>
    match p s with
    | Returns _ s' => Returns v s'
    | Raises e s' => Raises e s'
    end.

(** A pipeline with every pipe returning [v] instead of its own value. *)
Definition all_returning (v : value) (self : Pipeline) : Pipeline :=
  {| input_pipes := map (returning v) (input_pipes self);
     validation_pipes := map (returning v) (validation_pipes self);
     process_pipes := map (returning v) (process_pipes self);
     output_pipes := map (returning v) (output_pipes self) |}.

(** The state of the output target when [Pipeline.run] ends. *)
Definition output_of (r : run_result) : value :=
  match r with
  | Returned out => out
  | Raised _ out => out
  end.

(** The value [get_data_from_name] settles on for the raw input [raw]
    under the name [n]: what it extracts, or the default when that is
    null. *)
Definition settled (o : FieldOpts) (raw : value) (n : string) : value :=
  if is_none (attr_or_key raw n) then default o else attr_or_key raw n.


(** The keywords of a field declared with [name=n] and nothing else. *)
Definition named_kwargs (n : string) : kwargs :=
  {| kw__is_wrapped := None; kw_name := Some n; kw_attribute_name := None;
     kw_source := None; kw_error_msgs := None; kw_required := None;
     kw_default := None; kw_null_default := None; kw_allow_none := None;
     kw_read_only := None; kw_choices := None |}.

(** [String()], as it is passed to [Collection]. *)
Definition unnamed_string : Field :=
  FPlain ClsString (set_name (FieldOpts_attrs no_kwargs) None None None).



(** A text conversion and a date parser for the examples: text is its
    own text, and is parsed to itself. *)
Definition text_of_text (v : value) : option string :=
  match v with
  | VStr s => Some s
  | _ => None
  end.

Definition parse_text (v : value) : option value :=
  match v with
  | VStr s => Some (VStr s)
  | _ => None
  end.

(** The renderer of the closed examples: their templates have no
    replacement field that is left to it, and it raises on whatever it is
    asked. *)
#[global] Instance no_render : Renderer := fun _ _ => Raise ValueError.

(** [s'] is [s] after the assignment [session.data = v]. *)
Definition assigns_data (s : Session) (v : value) (s' : Session) : Prop :=
  data s' = v /\ field s' = field s /\ output s' = output s /\
  parent s' = parent s /\ mapper_session s' = mapper_session s.

(** The fields the constructors build from the keywords [kw]: a plain
    field, a nested field, a static field, or a collection around a field
    that was itself built by a constructor. *)
Inductive built : kwargs -> Field -> Prop :=
| built_plain (cls : field_class) (kw : kwargs) (f : Field) :
    new_field cls kw = Ok f -> built kw f
| built_nested (ref : mapper_ref) (nkw : nested_kwargs) (kw : kwargs) (f : Field) :
    Nested ref nkw kw = Ok f -> built kw f
| built_static (v : value) (kw : kwargs) (f : Field) :
    Static v kw = Ok f -> built kw f
| built_collection (kw' : kwargs) (inner : Field) (unique_on : option string)
    (kw : kwargs) (f : Field) :
    built kw' inner -> Collection (ArgField inner) unique_on kw = Ok f -> built kw f.

(** A field none of whose options objects, its own and those of the
    fields it wraps, has a name or an attribute name. *)
Fixpoint unnamed (f : Field) : Prop :=
  truthy (name (opts f)) = false /\ truthy (attribute_name (opts f)) = false /\
  match f with
  | FCollection _ inner _ => unnamed inner
  | _ => True
  end.

(** [String(name='id', default='anon')] *)
Definition default_id : Field :=
  FPlain ClsString
    (set_name
       (FieldOpts_attrs
          {| kw__is_wrapped := None; kw_name := Some "id"; kw_attribute_name := None;
             kw_source := None; kw_error_msgs := None; kw_required := None;
             kw_default := Some (VStr "anon"); kw_null_default := None;
             kw_allow_none := None; kw_read_only := None; kw_choices := None |})
       (Some "id") None None).

(** The field named [id], marked as wrapped. *)
Definition wrapped_id : Field := FPlain ClsString (with__is_wrapped id_opts true).


(** ** Auxiliary facts *)

Lemma is_none_true (v : value) : is_none v = true <-> v = VNone.
Proof. destruct v; simpl; split; intros H; congruence. Qed.

Lemma is_none_false (v : value) : is_none v = false <-> v <> VNone.
Proof. destruct v; simpl; split; intros H; congruence. Qed.

(** A decorated pipe runs its function on any non-null data. *)
Lemma pipe_on_data (b : bool) (f : Session -> outcome) (session : Session) :
  data session <> VNone -> pipe b f session = f session.
Proof.
  intros H. apply is_none_false in H.
  unfold pipe, Pipe__call__, Pipe_run. simpl. now rewrite H.
Qed.

(** A pipe decorated without [run_if_none] does nothing on null data. *)
Lemma pipe_skips_none (f : Session -> outcome) (session : Session) :
  data session = VNone -> pipe false f session = Returns VNone session.
Proof.
  intros H. unfold pipe, Pipe__call__, Pipe_run. simpl.
  rewrite H. reflexivity.
Qed.

(** A pipe decorated with [run_if_none] always runs its function. *)
Lemma pipe_run_if_none (f : Session -> outcome) (session : Session) :
  pipe true f session = f session.
Proof.
  unfold pipe, Pipe__call__, Pipe_run. simpl.
  destruct (is_none (data session)); reflexivity.
Qed.

(** Every options object built by [FieldOpts.__init__] has a template for
    each of the default error kinds: keyword overrides only add to or
    replace entries of the default table. *)
Lemma FieldOpts_attrs_has_default_msgs (kw : kwargs) (k t : string) :
  DEFAULT_ERROR_MSGS !! k = Some t ->
  is_Some (error_msgs (FieldOpts_attrs kw) !! k).
Proof.
  intros H. unfold FieldOpts_attrs. simpl.
  destruct (pop (kw_error_msgs kw) extra_error_msgs !! k) as [t'|] eqn:E.
  - exists t'. apply lookup_union_Some_l. exact E.
  - exists t. rewrite lookup_union_r by exact E. exact H.
Qed.

(** With a resolved name and a template for the kind, [Field.invalid]
    raises the validation signal carrying the formatted template, and
    whatever formatting the template raises when that fails. *)
Lemma invalid_FieldInvalid `{R : Renderer} (f : Field) (n kind t msg : string) :
  Field_name f = Ok n ->
  error_msgs (opts f) !! kind = Some t ->
  format_name t n = Ok msg ->
  invalid f kind = FieldInvalid msg f.
Proof.
  intros Hn Ht Hf. unfold invalid, get_error. rewrite Hn. simpl. now rewrite Ht, Hf.
Qed.

Lemma invalid_format_error `{R : Renderer} (f : Field) (n kind t : string) (e : exn Field) :
  Field_name f = Ok n ->
  error_msgs (opts f) !! kind = Some t ->
  format_name t n = Raise e ->
  invalid f kind = e.
Proof.
  intros Hn Ht Hf. unfold invalid, get_error. rewrite Hn. simpl. now rewrite Ht, Hf.
Qed.

(** On a field whose name does not resolve, [Field.invalid] raises the
    error of the name. *)
Lemma invalid_unnamed `{R : Renderer} (f : Field) (kind : string) (e : exn Field) :
  Field_name f = Raise e -> invalid f kind = e.
Proof. intros Hn. unfold invalid, get_error. now rewrite Hn. Qed.

(** The loop over a split pipe list runs the prefix, then the rest. *)
Lemma run_pipes_app (pre post : list (Session -> outcome)) (s : Session) :
  run_pipes (pre ++ post)%list s =
  match run_pipes pre s with
  | Returns _ s' => run_pipes post s'
  | Raises e s' => Raises e s'
  end.
Proof.
  revert s. induction pre as [|p pre IH]; intros s; simpl.
  - reflexivity.
  - destruct (p s) as [v s'|e s']; [apply IH | reflexivity].
Qed.

(** ** C6: the execution contract of a pipe *)

(** C6. [Pipe.run]: on non-null data the wrapped function is invoked and
    its result returned; on null data without [run_if_none] the pipe does
    nothing and returns [session.data]; on null data with [run_if_none]
    the wrapped function is invoked all the same. *)
Theorem Pipe_run_contract (self : Pipe) (session : Session) :
  (data session <> VNone -> Pipe_run self session = func self session) /\
  (data session = VNone -> run_if_none self = false ->
   Pipe_run self session = Returns (data session) session) /\
  (data session = VNone -> run_if_none self = true ->
   Pipe_run self session = func self session).
Proof.
  unfold Pipe_run. split; [|split].
  - intros H. apply is_none_false in H. now rewrite H.
  - intros H Hr. apply is_none_true in H. rewrite H, Hr. reflexivity.
  - intros H Hr. apply is_none_true in H. rewrite H, Hr. reflexivity.
Qed.

(** A pipe whose function always stops the pipeline, run on null data of
    a plain field: it is skipped without [run_if_none], invoked with it. *)
Lemma Pipe_run_contract_witness :
  let stop := fun s => Raises (StopPipelineExecution "stop") s in
  let s0 := start (FPlain ClsField id_opts) (fresh_session VNone) in
  let s1 := start (FPlain ClsField id_opts) (fresh_session bob) in
  Pipe_run {| func := stop; run_if_none := false |} s0 = Returns VNone s0 /\
  Pipe_run {| func := stop; run_if_none := true |} s0 = stop s0 /\
  Pipe_run {| func := stop; run_if_none := false |} s1 = stop s1.
Proof.
  intros stop s0 s1. split; [|split].
  - apply (proj1 (proj2 (Pipe_run_contract {| func := stop; run_if_none := false |} s0)));
      reflexivity.
  - apply (proj2 (proj2 (Pipe_run_contract {| func := stop; run_if_none := true |} s0)));
      reflexivity.
  - apply (proj1 (Pipe_run_contract {| func := stop; run_if_none := false |} s1)).
    intros H. vm_compute in H. discriminate H.
Defined.

(** ** C5: early termination and propagation in [Pipeline.run] *)

(** C5. Let the pipes of a pipeline split as [pre ++ p :: post], let
    every pipe of [pre] return, and let [p] raise [e]. If [e] is the
    stop-pipeline signal, [Pipeline.run] returns the session's output
    object as [p] left it, whatever the pipes of [post] are: none of them
    is executed and no exception escapes. If [e] is the validation
    signal, it leaves [Pipeline.run] uncaught. *)
Theorem Pipeline_run_stop_and_invalid
    (self : Pipeline) (ms : MapperSession) (f : Field) (parent_session : option Session)
    (pre post : list (Session -> outcome)) (p : Session -> outcome)
    (v : value) (s1 s2 : Session) (e : exn Field) :
  chain self = (pre ++ p :: post)%list ->
  run_pipes pre (mkSession f (ms_data ms) (ms_output ms) parent_session ms)
    = Returns v s1 ->
  p s1 = Raises e s2 ->
  (forall msg, e = StopPipelineExecution msg ->
     run self ms f parent_session = Returned (output s2)) /\
  (forall message fld, e = FieldInvalid message fld ->
     run self ms f parent_session = Raised (FieldInvalid message fld) (output s2)).
Proof.
  intros Hchain Hpre Hp.
  assert (Hrun : run_pipes (chain self)
                   (mkSession f (ms_data ms) (ms_output ms) parent_session ms)
                 = Raises e s2).
  { rewrite Hchain, run_pipes_app, Hpre. simpl. now rewrite Hp. }
  unfold run. rewrite Hrun.
  split; intros; subst e; reflexivity.
Qed.

(** Marshaling [{'id': 2}] through a read-only field stops at [read_only]
    and returns the untouched mapping; marshaling [{'name': 'bob'}]
    through a required field lets the required error out. *)
Lemma Pipeline_run_stop_and_invalid_witness :
  run MarshalPipeline (fresh_session (VDict [("id", VInt 2)])) read_only_id None
    = Returned (VDict []) /\
  run MarshalPipeline (fresh_session bob) required_id None
    = Raised (FieldInvalid "This is a required field" required_id) (VDict []).
Proof.
  split.
  - pose (ms := fresh_session (VDict [("id", VInt 2)])).
    apply (proj1 (Pipeline_run_stop_and_invalid MarshalPipeline ms read_only_id None
                    [get_data_from_name] [update_output_to_name] KimPipelinesBase.read_only
                    VNone (with_data (start read_only_id ms) (VInt 2))
                    (with_data (start read_only_id ms) (VInt 2))
                    (StopPipelineExecution "read_only field")
                    eq_refl eq_refl eq_refl) "read_only field" eq_refl).
  - pose (ms := fresh_session bob).
    apply (proj2 (Pipeline_run_stop_and_invalid MarshalPipeline ms required_id None
                    [] [KimPipelinesBase.read_only; update_output_to_name]
                    get_data_from_name
                    VNone (start required_id ms) (start required_id ms)
                    (FieldInvalid "This is a required field" required_id)
                    eq_refl eq_refl eq_refl)
                 "This is a required field" required_id eq_refl).
Defined.

(** ** C1: the null cascade of [get_data_from_name] *)

(** C1, as stated, fails when the raw input itself is null: for a
    required field without default, the value under its name reads as
    null, yet the pipe, declared without [run_if_none], is skipped and
    nothing is raised. *)
Lemma get_data_from_name_null_input_counterexample :
  ~ (forall (session : Session) (n : string),
       _is_wrapped (opts (field session)) = false ->
       Field_name (field session) = Ok n ->
       attr_or_key (data session) n = VNone ->
       required (opts (field session)) = true ->
       default (opts (field session)) = VNone ->
       exists e s', get_data_from_name session = Raises e s').
Proof.
  intros H.
  destruct (H (start required_id (fresh_session VNone)) "id"
              eq_refl eq_refl eq_refl eq_refl eq_refl) as (e & s' & Hr).
  vm_compute in Hr. discriminate Hr.
Qed.

(** C1, amended. For a field that is not wrapped, whose name resolves to
    [n] and under whose name the raw input has no value: on null raw
    input the pipe is skipped and [session.data] stays null; on non-null
    raw input
    - required and no default: [Field.invalid('required')] is raised;
    - otherwise, a default configured: the default is assigned to
      [session.data] and returned, without error;
    - otherwise, nulls disallowed: [Field.invalid('none_not_allowed')]
      is raised;
    - otherwise null is assigned to [session.data].
    What [Field.invalid] raises for a kind is the validation signal
    carrying the kind's template formatted with [n], or else the
    exception raised by formatting that template. *)
Theorem get_data_from_name_null_cascade `{R : Renderer}
    (session : Session) (n : string) :
  let f := field session in
  let o := opts f in
  _is_wrapped o = false ->
  Field_name f = Ok n ->
  attr_or_key (data session) n = VNone ->
  (data session = VNone -> get_data_from_name session = Returns VNone session) /\
  (data session <> VNone ->
   (required o = true -> default o = VNone ->
      get_data_from_name session = Raises (invalid f "required") session) /\
   (default o <> VNone ->
      exists s',
        get_data_from_name session = Returns (default o) s' /\
        assigns_data session (default o) s') /\
   (required o = false -> default o = VNone -> allow_none o = false ->
      get_data_from_name session = Raises (invalid f "none_not_allowed") session) /\
   (required o = false -> default o = VNone -> allow_none o = true ->
      exists s',
        get_data_from_name session = Returns VNone s' /\
        assigns_data session VNone s')) /\
  (forall kind t,
     error_msgs o !! kind = Some t ->
     match format_name t n with
     | Ok msg => invalid f kind = FieldInvalid msg f
     | Raise e => invalid f kind = e
     end).
Proof.
  intros f o Hw Hn Hv.
  split; [|split].
  - intros Hd. unfold get_data_from_name. now apply pipe_skips_none.
  - intros Hd. unfold get_data_from_name. rewrite (pipe_on_data _ _ _ Hd).
    unfold get_data_from_name_func. fold f. fold o.
    rewrite Hw, Hn, Hv. simpl.
    split; [|split; [|split]].
    + intros Hreq Hdef. rewrite Hreq, Hdef. reflexivity.
    + intros Hdef. apply is_none_false in Hdef. rewrite Hdef.
      rewrite andb_false_r. simpl.
      eexists. split; [reflexivity|]. repeat split.
    + intros Hreq Hdef Hallow. rewrite Hreq, Hdef, Hallow. reflexivity.
    + intros Hreq Hdef Hallow. rewrite Hreq, Hdef, Hallow. simpl.
      eexists. split; [reflexivity|]. repeat split.
  - intros kind t Ht.
    destruct (format_name t n) as [msg|e] eqn:Hf.
    + now apply (invalid_FieldInvalid f n kind t msg).
    + now apply (invalid_format_error f n kind t e).
Qed.

(** On [{'name': 'bob'}]: the required field named [id] raises the
    required error, and the field with [default='anon'] takes the
    default; on a null raw input the required field raises nothing. *)
Lemma get_data_from_name_null_cascade_witness :
  let s := start required_id (fresh_session bob) in
  let d := start default_id (fresh_session bob) in
  let z := start required_id (fresh_session VNone) in
  get_data_from_name s
    = Raises (FieldInvalid "This is a required field" required_id) s /\
  (exists d', get_data_from_name d = Returns (VStr "anon") d' /\
              data d' = VStr "anon" /\ output d' = VDict []) /\
  get_data_from_name z = Returns VNone z.
Proof.
  intros s d z.
  assert (Hb : bob <> VNone) by (intros H; discriminate H).
  split; [|split].
  - destruct (get_data_from_name_null_cascade s "id" eq_refl eq_refl eq_refl)
      as (_ & Hc & Hi).
    destruct (Hc Hb) as (Hreq & _).
    pose proof (Hi "required" "This is a required field" eq_refl) as Hm.
    change (invalid required_id "required"
            = FieldInvalid "This is a required field" required_id) in Hm.
    transitivity (Raises (invalid required_id "required") s);
      [exact (Hreq eq_refl eq_refl) | now rewrite Hm].
  - destruct (get_data_from_name_null_cascade d "id" eq_refl eq_refl eq_refl)
      as (_ & Hc & _).
    destruct (Hc Hb) as (_ & Hdef & _).
    destruct Hdef as (d' & Hr & Hdata & _ & Hout & _).
    + intros H; discriminate H.
    + exists d'. split; [exact Hr|]. split; [exact Hdata | exact Hout].
  - destruct (get_data_from_name_null_cascade z "id" eq_refl eq_refl eq_refl)
      as (Hz & _).
    exact (Hz eq_refl).
Defined.

(** ** C10: wrapped fields skip name-based extraction *)

(** C10. For a field whose options are marked [_is_wrapped],
    [get_data_from_name] returns [session.data] and leaves the session as
    it is, for every value of [session.data], null included: no error is
    raised and the configured default is not substituted. *)
Theorem get_data_from_name_wrapped `{R : Renderer} (session : Session) :
  _is_wrapped (opts (field session)) = true ->
  get_data_from_name session = Returns (data session) session.
Proof.
  intros Hw. unfold get_data_from_name, pipe, Pipe__call__, Pipe_run. simpl.
  unfold get_data_from_name_func. rewrite Hw.
  destruct (is_none (data session)); reflexivity.
Qed.

(** The required field named [id], marked as wrapped, on
    [{'name': 'bob'}]: the data is handed through as it is, where the
    same field not marked raises the required error; and on a null
    element. *)
Lemma get_data_from_name_wrapped_witness :
  let s := start wrapped_id (fresh_session bob) in
  let u := start (FPlain ClsString id_opts) (fresh_session bob) in
  let z := start wrapped_id (fresh_session VNone) in
  get_data_from_name s = Returns bob s /\
  get_data_from_name u
    = Raises (FieldInvalid "This is a required field" (FPlain ClsString id_opts)) u /\
  get_data_from_name z = Returns VNone z.
Proof.
  intros s u z. split; [|split].
  - exact (get_data_from_name_wrapped s eq_refl).
  - reflexivity.
  - exact (get_data_from_name_wrapped z eq_refl).
Defined.

(** ** C4: the choice-membership check *)

(** C4, as stated, fails on null data: with [choices=['a']] and
    [session.data] null, the pipe is skipped by [Pipe.run] and returns
    null without raising. *)
Lemma is_valid_choice_null_counterexample :
  ~ (forall (session : Session) (cs : list value),
       choices (opts (field session)) = Some cs ->
       data session = VNone \/ py_in (data session) cs = false ->
       exists e s', is_valid_choice session = Raises e s').
Proof.
  intros H.
  destruct (H (start choice_id (fresh_session VNone)) [VStr "a"] eq_refl
              (or_introl eq_refl)) as (e & s' & Hr).
  vm_compute in Hr. discriminate Hr.
Qed.

(** C4, amended. With [choices] configured, [is_valid_choice] raises
    exactly when [session.data] is non-null and not a member of the
    choices, and what it raises then is what
    [Field.invalid('invalid_choice')] raises: the invalid-choice error,
    that is the validation signal carrying the formatted
    [invalid_choice] template, when the field's name resolves and the
    template formats; the error of the name when it does not resolve;
    the exception of the formatting when that fails. On a member, and on
    null data, where the pipe is skipped, it returns [session.data] and
    leaves the session unchanged. With [choices] not configured it never
    raises. *)
Theorem is_valid_choice_outcome `{R : Renderer} (session : Session) :
  let f := field session in
  let o := opts f in
  (forall cs, choices o = Some cs ->
     ((exists e s', is_valid_choice session = Raises e s') <->
      (data session <> VNone /\ py_in (data session) cs = false)) /\
     (data session <> VNone -> py_in (data session) cs = false ->
      is_valid_choice session = Raises (invalid f "invalid_choice") session /\
      (forall n t msg,
         Field_name f = Ok n -> error_msgs o !! "invalid_choice" = Some t ->
         format_name t n = Ok msg ->
         invalid f "invalid_choice" = FieldInvalid msg f) /\
      (forall e, Field_name f = Raise e -> invalid f "invalid_choice" = e) /\
      (forall n t e,
         Field_name f = Ok n -> error_msgs o !! "invalid_choice" = Some t ->
         format_name t n = Raise e ->
         invalid f "invalid_choice" = e)) /\
     (data session = VNone \/ py_in (data session) cs = true ->
      is_valid_choice session = Returns (data session) session)) /\
  (choices o = None -> is_valid_choice session = Returns (data session) session).
Proof.
  intros f o. unfold is_valid_choice.
  split.
  - intros cs Hcs.
    destruct (is_none (data session)) eqn:Hnone.
    + apply is_none_true in Hnone.
      rewrite (pipe_skips_none _ _ Hnone).
      split; [|split].
      * split.
        -- intros (e & s' & Hr). discriminate Hr.
        -- intros [Hd _]. contradiction.
      * intros Hd. contradiction.
      * intros _. now rewrite Hnone.
    + apply is_none_false in Hnone.
      rewrite (pipe_on_data _ _ _ Hnone).
      unfold is_valid_choice_func. fold f. fold o. rewrite Hcs.
      destruct (py_in (data session) cs) eqn:Hin; simpl.
      * split; [|split].
        -- split.
           ++ intros (e & s' & Hr). discriminate Hr.
           ++ intros [_ Hf]. discriminate Hf.
        -- intros _ Hf. discriminate Hf.
        -- intros _. reflexivity.
      * split; [|split].
        -- split.
           ++ intros _. split; [exact Hnone | reflexivity].
           ++ intros _. eexists. eexists. reflexivity.
        -- intros _ _. split; [reflexivity|]. split; [|split].
           ++ intros n t msg Hn Ht Hf.
              now apply (invalid_FieldInvalid f n "invalid_choice" t msg).
           ++ intros e He. now apply invalid_unnamed.
           ++ intros n t e Hn Ht Hf.
              now apply (invalid_format_error f n "invalid_choice" t e).
        -- intros [Hd | Hf]; [contradiction | discriminate Hf].
  - intros Hcs.
    unfold pipe, Pipe__call__, Pipe_run. simpl.
    unfold is_valid_choice_func. fold f. fold o. rewrite Hcs.
    destruct (is_none (data session)); reflexivity.
Qed.

(** The field with [choices=['a']] on the data ['b'], ['a'] and null. *)
Lemma is_valid_choice_outcome_witness :
  let on := fun v => with_data (start choice_id (fresh_session VNone)) v in
  is_valid_choice (on (VStr "b"))
    = Raises (FieldInvalid "invalid choice" choice_id) (on (VStr "b")) /\
  is_valid_choice (on (VStr "a")) = Returns (VStr "a") (on (VStr "a")) /\
  is_valid_choice (on VNone) = Returns VNone (on VNone).
Proof.
  intros on.
  assert (Hne : forall s, data (on (VStr s)) <> VNone) by (intros s H; discriminate H).
  split; [|split].
  - destruct (proj1 (proj2 (proj1 (is_valid_choice_outcome (on (VStr "b")))
                              [VStr "a"] eq_refl))
                (Hne "b") eq_refl) as (Hr & Hm & _).
    pose proof (Hm "id" "invalid choice" "invalid choice" eq_refl eq_refl eq_refl) as Hi.
    change (invalid choice_id "invalid_choice"
            = FieldInvalid "invalid choice" choice_id) in Hi.
    transitivity (Raises (invalid choice_id "invalid_choice") (on (VStr "b")));
      [exact Hr | now rewrite Hi].
  - apply (proj2 (proj2 (proj1 (is_valid_choice_outcome (on (VStr "a")))
                           [VStr "a"] eq_refl))
             (or_intror eq_refl)).
  - apply (proj2 (proj2 (proj1 (is_valid_choice_outcome (on VNone))
                           [VStr "a"] eq_refl))
             (or_introl eq_refl)).
Defined.

(** ** C7: a nested field resolves its mapper lazily *)

(** C7. Constructing a [Nested] field succeeds for every mapper
    reference and is a function of the constructor's arguments alone: the
    registry is no input of it, and the reference is stored as given.
    Against any registry in which the reference does not resolve,
    [get_mapper] on the constructed field raises a field error; where it
    resolves, [get_mapper] hands the mapper back. *)
Theorem Nested_defers_mapper_resolution
    (ref : mapper_ref) (nkw : nested_kwargs) (kw : kwargs) :
  exists o n,
    Nested ref nkw kw = Ok (FNested o n) /\
    mapper n = ref /\
    forall (MAPPER_REGISTRY : gmap string mapper_class) as_class mapper_params,
      (unresolvable MAPPER_REGISTRY ref ->
       exists msg,
         get_mapper MAPPER_REGISTRY (FNested o n) as_class mapper_params
           = Raise (FieldError msg)) /\
      (forall cls,
         get_mapper_from_registry (F := Field) MAPPER_REGISTRY ref = Ok cls ->
         get_mapper MAPPER_REGISTRY (FNested o n) as_class mapper_params
           = Ok (if as_class then MapperClass cls else MapperInstance cls mapper_params)).
Proof.
  unfold Nested, NestedFieldOpts__init__, FieldOpts__init__, validate. simpl.
  eexists. eexists. split; [reflexivity|]. split; [reflexivity|].
  intros reg as_class params. unfold get_mapper. simpl. split.
  - intros Hun. destruct ref as [x | c | v]; simpl in *.
    + rewrite Hun. simpl. eexists. reflexivity.
    + contradiction.
    + eexists. reflexivity.
  - intros cls Hcls. rewrite Hcls. simpl. destruct as_class; reflexivity.
Qed.

(** [Nested('DoesNotExist', name='x')] is constructed; [get_mapper] on it
    against the empty registry raises a field error. *)
Lemma Nested_defers_mapper_resolution_witness :
  exists f,
    Nested (ByName "DoesNotExist") no_nested_kwargs
           {| kw__is_wrapped := None; kw_name := Some "x"; kw_attribute_name := None;
              kw_source := None; kw_error_msgs := None; kw_required := None;
              kw_default := None; kw_null_default := None; kw_allow_none := None;
              kw_read_only := None; kw_choices := None |} = Ok f /\
    exists msg, get_mapper ∅ f false [] = Raise (FieldError msg).
Proof.
  destruct (Nested_defers_mapper_resolution (ByName "DoesNotExist") no_nested_kwargs
              {| kw__is_wrapped := None; kw_name := Some "x"; kw_attribute_name := None;
                 kw_source := None; kw_error_msgs := None; kw_required := None;
                 kw_default := None; kw_null_default := None; kw_allow_none := None;
                 kw_read_only := None; kw_choices := None |})
    as (o & n & Hc & _ & Hg).
  exists (FNested o n). split; [exact Hc|].
  apply (proj1 (Hg ∅ false [])). reflexivity.
Defined.


(** ** C2: read-only fields and null input *)

(** The pipe [read_only] is decorated without [run_if_none]: on null data
    it is skipped and the pipeline goes on, whatever the field says. *)
Lemma read_only_skipped_on_null (session : Session) :
  data session = VNone ->
  KimPipelinesBase.read_only session = Returns VNone session.
Proof. intros H. apply pipe_skips_none. exact H. Qed.

(** On non-null data, a read-only field stops the pipeline there. *)
Lemma read_only_stops_on_data (session : Session) :
  data session <> VNone ->
  KimField.read_only (opts (field session)) = true ->
  KimPipelinesBase.read_only session
    = Raises (StopPipelineExecution "read_only field") session.
Proof.
  intros Hd Hr. unfold KimPipelinesBase.read_only.
  rewrite (pipe_on_data _ _ _ Hd). unfold read_only_func. now rewrite Hr.
Qed.

(** C2 does not hold of the code. The field
    [String(name='id', read_only=True, required=False)] marshals
    [{'name': 'bob'}], where [id] is absent, into a fresh mapping: the
    extracted value is null, so [read_only] is skipped and the output
    pipe writes [None] under [id]. The same happens to the required
    read-only field when the raw input itself is null. *)
Theorem read_only_null_input_is_written `{R : Renderer} (text_type : value -> option string) :
  new_field ClsString optional_read_only_kwargs = Ok optional_read_only_id /\
  KimField.read_only (opts optional_read_only_id) = true /\
  run (StringMarshalPipeline text_type) (fresh_session bob) optional_read_only_id None
    = Returned (VDict [("id", VNone)]) /\
  new_field ClsString read_only_kwargs = Ok read_only_string_id /\
  run (StringMarshalPipeline text_type) (fresh_session VNone) read_only_string_id None
    = Returned (VDict [("id", VNone)]).
Proof. repeat split. Qed.

(** ** C3: text coercion in the string pipeline *)

(** [is_valid_string] returns the text but never assigns it: the session,
    and with it [session.data], is as before. *)
Lemma is_valid_string_keeps_session `{R : Renderer}
    (text_type : value -> option string) (session : Session) :
  session_of (is_valid_string text_type session) = session.
Proof.
  unfold is_valid_string, pipe, Pipe__call__, Pipe_run, is_valid_string_func. simpl.
  destruct (is_none (data session)); simpl;
    destruct (text_type (data session)); reflexivity.
Qed.


(** C3 does not hold of the code. Marshaling [{'id': 2}] through
    [String(name='id')] writes the integer [2], not its text, whatever
    text [six.text_type] produced for it; through
    [String(name='id', choices=['2'])] the choice check sees the integer
    and rejects it, although its text is among the choices. *)
Theorem String_marshal_drops_coercion `{R : Renderer} (text_type : value -> option string) :
  new_field ClsString (string_id_kwargs None) = Ok (string_id None) /\
  run (StringMarshalPipeline text_type) (fresh_session (VDict [("id", VInt 2)]))
      (string_id None) None
    = match text_type (VInt 2) with
      | Some _ => Returned (VDict [("id", VInt 2)])
      | None => Raised (FieldInvalid "Invalid type" (string_id None)) (VDict [])
      end /\
  run (StringMarshalPipeline text_type) (fresh_session (VDict [("id", VInt 2)]))
      (string_id (Some [VStr "2"])) None
    = match text_type (VInt 2) with
      | Some _ =>
          Raised (FieldInvalid "invalid choice" (string_id (Some [VStr "2"]))) (VDict [])
      | None =>
          Raised (FieldInvalid "Invalid type" (string_id (Some [VStr "2"]))) (VDict [])
      end.
Proof.
  split; [reflexivity|].
  split.
  - unfold run. cbn [chain StringMarshalPipeline MarshalPipeline input_pipes
                     validation_pipes process_pipes output_pipes app run_pipes].
    change (get_data_from_name _)
      with (Returns (VInt 2)
              (with_data (start (string_id None) (fresh_session (VDict [("id", VInt 2)])))
                         (VInt 2))).
    cbv beta iota.
    unfold is_valid_string, pipe, Pipe__call__, Pipe_run, is_valid_string_func.
    cbn [func run_if_none data with_data start is_none negb].
    destruct (text_type (VInt 2)); reflexivity.
  - unfold run. cbn [chain StringMarshalPipeline MarshalPipeline input_pipes
                     validation_pipes process_pipes output_pipes app run_pipes].
    change (get_data_from_name _)
      with (Returns (VInt 2)
              (with_data (start (string_id (Some [VStr "2"]))
                                (fresh_session (VDict [("id", VInt 2)])))
                         (VInt 2))).
    cbv beta iota.
    unfold is_valid_string, pipe, Pipe__call__, Pipe_run, is_valid_string_func.
    cbn [func run_if_none data with_data start is_none negb].
    destruct (text_type (VInt 2)); reflexivity.
Qed.

(** ** C8: the construction checks of a collection *)

(** Naming a field keeps the [_is_wrapped] mark of its options. *)
Lemma opts_set_name_is_wrapped (f : Field) (n a s : option string) :
  _is_wrapped (opts (opts_set_name f n a s)) = _is_wrapped (opts f).
Proof. destruct f; reflexivity. Qed.

(** A wrapped field whose name already resolves is refused with a field
    error. *)
Lemma Collection_rejects_named_field
    (inner : Field) (n : string) (unique_on : option string) (kw : kwargs) :
  Field_name inner = Ok n ->
  Collection (ArgField inner) unique_on kw
    = Raise (FieldError
               "name/attribute_name/source should not be passed to a wrapped field.").
Proof.
  intros Hn. unfold Collection, CollectionFieldOpts__init__, arg_name.
  rewrite Hn. reflexivity.
Qed.

(** When the construction succeeds, the collection carries the wrapped
    field with its options marked [_is_wrapped]. *)
Lemma Collection_marks_wrapped
    (inner : Field) (unique_on : option string) (kw : kwargs) (c : Field) :
  Collection (ArgField inner) unique_on kw = Ok c ->
  exists o inner',
    c = FCollection o inner' unique_on /\ _is_wrapped (opts inner') = true.
Proof.
  unfold Collection, CollectionFieldOpts__init__, arg_name.
  destruct (Field_name inner) as [n | e]; simpl.
  - discriminate.
  - destruct e; simpl; try discriminate.
    intros H. injection H as <-.
    eexists. eexists. split; [reflexivity|].
    rewrite opts_set_name_is_wrapped. destruct inner; reflexivity.
Qed.

(** A first argument without a [name] attribute makes the constructor
    fail on the attribute access, before any of its checks. *)
Lemma Collection_attribute_error
    (v : value) (unique_on : option string) (kw : kwargs) :
  getattr v "name" = Raise (AttributeError "name") ->
  Collection (ArgValue v) unique_on kw = Raise (AttributeError "name").
Proof.
  intros H. unfold Collection, CollectionFieldOpts__init__, arg_name.
  rewrite H. reflexivity.
Qed.

(** C8 does not hold of the code. [Collection(1)] fails with Python's
    [AttributeError], which is neither a field error nor an options
    error: the access [self.field.name] comes before [validate] can
    reject the argument. And a wrapped field that brings a [source] of
    its own, but no name, is accepted. *)
Theorem Collection_invalid_argument :
  Collection (ArgValue (VInt 1)) None no_kwargs = Raise (AttributeError "name") /\
  new_field ClsString source_only_kwargs = Ok source_only /\
  source (opts source_only) = Some "src" /\
  exists o inner,
    Collection (ArgField source_only) None no_kwargs = Ok (FCollection o inner None) /\
    source (opts inner) = Some "src".
Proof.
  split; [reflexivity|]. split; [reflexivity|]. split; [reflexivity|].
  eexists. eexists. split; reflexivity.
Qed.

(** * Further properties of the pipes and of the field model *)

(** ** Reading back what was written *)



(** ** The output pipe *)







(** ** Names *)

(** The [name] property of a collection is that of its wrapped field. *)
Lemma Field_name_collection (o : FieldOpts) (inner : Field) (u : option string) :
  Field_name (FCollection o inner u) =
  match Field_name inner with
  | Ok n => if String.eqb n "" then Raise (missing_name "Collection") else Ok n
  | Raise e => Raise e
  end.
Proof. simpl. destruct (Field_name inner); reflexivity. Qed.

(** The [name] property of any other field reads its own options. *)
Lemma Field_name_own (f : Field) :
  (forall o inner u, f <> FCollection o inner u) ->
  Field_name f =
  match name (opts f) with
  | Some n => if String.eqb n "" then Raise (missing_name (class_name f)) else Ok n
  | None => Raise (missing_name (class_name f))
  end.
Proof.
  intros H. destruct f as [c o | o x | o inner u | o v]; try reflexivity.
  exfalso. now apply (H o inner u).
Qed.

(** A resolved name is never empty. *)
Lemma Field_name_nonempty (f : Field) (n : string) :
  Field_name f = Ok n -> String.eqb n "" = false.
Proof.
  destruct f as [c o | o x | o inner u | o v].
  1, 2, 4: rewrite Field_name_own by (intros ? ? ? H; discriminate H);
    simpl; destruct (name o) as [m|]; [|discriminate];
    destruct (String.eqb m "") eqn:E; [discriminate|];
    intros H; injection H as <-; exact E.
  rewrite Field_name_collection.
  destruct (Field_name inner) as [m|e]; [|discriminate].
  destruct (String.eqb m "") eqn:E; [discriminate|].
  intros H; injection H as <-; exact E.
Qed.

(** [set_name] never replaces a name that is already set. *)
Lemma set_name_keeps_name (o : FieldOpts) (n : string) (m a s : option string) :
  name o = Some n -> String.eqb n "" = false ->
  name (set_name o m a s) = Some n.
Proof.
  intros Hn He. unfold set_name, py_or. simpl. rewrite Hn. simpl.
  repeat (rewrite He; simpl). reflexivity.
Qed.

(** [set_name] with a name, on options that have none, takes it. *)
Lemma set_name_takes_name (o : FieldOpts) (m : string) (a s : option string) :
  truthy (name o) = false -> String.eqb m "" = false ->
  name (set_name o (Some m) a s) = Some m.
Proof.
  intros Hn He. unfold set_name, py_or. simpl. rewrite Hn. simpl.
  repeat (rewrite He; simpl). reflexivity.
Qed.

(** Naming a field whose name already resolves changes nothing about it. *)
Lemma opts_set_name_keeps_resolved (f : Field) (n : string) (m a s : option string) :
  Field_name f = Ok n -> Field_name (opts_set_name f m a s) = Ok n.
Proof.
  induction f as [c o | o x | o inner IH u | o v]; intros H.
  1, 2, 4: pose proof (Field_name_nonempty _ _ H) as He;
    rewrite Field_name_own in H by (intros ? ? ? E; discriminate E);
    simpl in H; destruct (name o) as [k|] eqn:Hk; [|discriminate];
    destruct (String.eqb k "") eqn:Ek; [discriminate|];
    injection H as <-;
    cbn [opts_set_name with_opts opts];
    rewrite Field_name_own by (intros ? ? ? E; discriminate E);
    cbn [opts]; rewrite (set_name_keeps_name o k m a s Hk Ek); now rewrite Ek.
  simpl opts_set_name. rewrite Field_name_collection in *.
  destruct (Field_name inner) as [k|e] eqn:Hi; [|discriminate].
  destruct (String.eqb k "") eqn:Ek; [discriminate|]. injection H as <-.
  rewrite (IH eq_refl). now rewrite Ek.
Qed.

(** Naming a field whose name does not resolve gives it that name. *)
Lemma opts_set_name_names (f : Field) (e : exn Field) (m : string) (a s : option string) :
  Field_name f = Raise e -> String.eqb m "" = false ->
  Field_name (opts_set_name f (Some m) a s) = Ok m.
Proof.
  intros H He. revert e H.
  induction f as [c o | o x | o inner IH u | o v]; intros e H.
  1, 2, 4: rewrite Field_name_own in H by (intros ? ? ? E; discriminate E);
    cbn [opts_set_name with_opts opts] in *;
    rewrite Field_name_own by (intros ? ? ? E; discriminate E);
    cbn [opts];
    rewrite (set_name_takes_name o m a s); [now rewrite He | | exact He];
    destruct (name o) as [k|]; [|reflexivity];
    simpl; destruct (String.eqb k ""); [reflexivity | discriminate H].
  simpl opts_set_name. rewrite Field_name_collection in *.
  destruct (Field_name inner) as [k|e'] eqn:Hi.
  - pose proof (Field_name_nonempty _ _ Hi) as Hk. rewrite Hk in H. discriminate H.
  - rewrite (IH e' eq_refl). now rewrite He.
Qed.

(** Marking the options of a field as wrapped does not touch its name. *)
Lemma Field_name_with_is_wrapped (f : Field) (b : bool) :
  Field_name (with_opts f (with__is_wrapped (opts f) b)) = Field_name f.
Proof. destruct f; reflexivity. Qed.

(** The [name] setter cannot rename: on every field whose name resolves,
    collections included, assigning another name leaves the name as it
    was. *)
Theorem name_setter_keeps_resolved_name (f : Field) (n : string) (m : option string) :
  Field_name f = Ok n -> Field_name (Field_set_name f m) = Ok n.
Proof. intros H. unfold Field_set_name. now apply opts_set_name_keeps_resolved. Qed.

(** Assigning ['other'] to the field named [id]. *)
Lemma name_setter_keeps_resolved_name_witness :
  Field_name (Field_set_name required_id (Some "other")) = Ok "id".
Proof. exact (name_setter_keeps_resolved_name required_id "id" (Some "other") eq_refl). Defined.

(** The [name] setter names a field that has no name yet: afterwards the
    name resolves to the non-empty text assigned; for a collection this
    goes through the wrapped field. *)
Theorem name_setter_names_unnamed (f : Field) (e : exn Field) (m : string) :
  Field_name f = Raise e -> m <> "" ->
  Field_name (Field_set_name f (Some m)) = Ok m.
Proof.
  intros H Hm. unfold Field_set_name. apply (opts_set_name_names f e); [exact H|].
  now apply String.eqb_neq.
Qed.

(** Assigning ['tags'] to a collection of unnamed strings. *)
Lemma name_setter_names_unnamed_witness :
  let c :=
    FCollection (FieldOpts_attrs no_kwargs)
                (with_opts unnamed_string (with__is_wrapped (opts unnamed_string) true))
                None in
  Field_name (Field_set_name c (Some "tags")) = Ok "tags".
Proof.
  intros c.
  apply (name_setter_names_unnamed c (missing_name "String") "tags" eq_refl).
  intros H. discriminate H.
Defined.

(** ** C9: the name fallback *)

Lemma py_or_falsy_l (a b : option string) : truthy a = false -> py_or a b = b.
Proof. intros H. unfold py_or. now rewrite H. Qed.

Lemma py_or_truthy_l (a b : option string) : truthy a = true -> py_or a b = a.
Proof. intros H. unfold py_or. now rewrite H. Qed.

Lemma py_or_falsy (a b : option string) :
  truthy (py_or a b) = false -> truthy a = false /\ truthy b = false.
Proof.
  unfold py_or. destruct (truthy a) eqn:Ha; intros H; [congruence | auto].
Qed.

Lemma truthy_Some (a : option string) :
  truthy a = true -> exists n, a = Some n /\ String.eqb n "" = false.
Proof.
  destruct a as [n|]; simpl; [|discriminate].
  intros H. exists n. split; [reflexivity|]. now destruct (String.eqb n "").
Qed.

(** The names [FieldOpts.__init__] leaves in a fresh options object. *)
Lemma set_name_fresh (kw : kwargs) (n a s : option string) :
  let o := set_name (FieldOpts_attrs kw) n a s in
  name o = py_or n a /\ attribute_name o = a /\ source o = py_or s (py_or n a).
Proof. repeat split. Qed.

(** What the constructors return. *)
Lemma new_field_inv (cls : field_class) (kw : kwargs) (f : Field) :
  new_field cls kw = Ok f ->
  f = FPlain cls (set_name (FieldOpts_attrs kw)
                           (kw_name kw) (kw_attribute_name kw) (kw_source kw)).
Proof.
  unfold new_field, FieldOpts__init__, validate. simpl. intros H. now injection H.
Qed.

Lemma Nested_inv (ref : mapper_ref) (nkw : nested_kwargs) (kw : kwargs) (f : Field) :
  Nested ref nkw kw = Ok f ->
  exists n,
    f = FNested (set_name (FieldOpts_attrs kw)
                          (kw_name kw) (kw_attribute_name kw) (kw_source kw)) n.
Proof.
  unfold Nested, NestedFieldOpts__init__, FieldOpts__init__, validate. simpl.
  intros H. injection H as <-. eexists. reflexivity.
Qed.

Lemma Static_inv (v : value) (kw : kwargs) (f : Field) :
  Static v kw = Ok f ->
  f = FStatic (with_read_only
                 (set_name (FieldOpts_attrs kw)
                           (kw_name kw) (kw_attribute_name kw) (kw_source kw)) true) v.
Proof.
  unfold Static, FieldOpts__init__, validate. simpl. intros H. now injection H.
Qed.

Lemma Collection_inv (inner : Field) (u : option string) (kw : kwargs) (f : Field) :
  Collection (ArgField inner) u kw = Ok f ->
  (exists msg, Field_name inner = Raise (FieldError msg)) /\
  f = FCollection
        (set_name (FieldOpts_attrs kw)
                  (kw_name kw) (kw_attribute_name kw) (kw_source kw))
        (opts_set_name (with_opts inner (with__is_wrapped (opts inner) true))
                       (kw_name kw) (kw_attribute_name kw) (kw_source kw)) u.
Proof.
  unfold Collection, CollectionFieldOpts__init__, arg_name.
  destruct (Field_name inner) as [k | e]; simpl; [discriminate|].
  destruct e; simpl; try discriminate.
  intros H. injection H as <-. split; [eexists|]; reflexivity.
Qed.

Lemma unnamed_with_is_wrapped (f : Field) (b : bool) :
  unnamed f -> unnamed (with_opts f (with__is_wrapped (opts f) b)).
Proof. destruct f; simpl; auto. Qed.

(** Naming a field that has no name anywhere: it stays without one when
    neither a name nor an attribute name is passed, and resolves to what
    is passed otherwise. *)
Lemma unnamed_set_name (g : Field) (n' a' s' : option string) :
  unnamed g ->
  (truthy (py_or n' a') = false ->
   unnamed (opts_set_name g n' a' s') /\
   exists msg, Field_name (opts_set_name g n' a' s') = Raise (FieldError msg)) /\
  (forall n, truthy (py_or n' a') = true -> py_or n' a' = Some n ->
   Field_name (opts_set_name g n' a' s') = Ok n).
Proof.
  induction g as [c o | o x | o inner IH u | o v]; intros Hu.
  1, 2, 4: destruct Hu as (Hn & Ha & _); simpl in Hn, Ha;
    cbn [opts_set_name with_opts opts];
    rewrite Field_name_own by (intros ? ? ? E; discriminate E);
    cbn [unnamed opts class_name];
    assert (Hname : name (set_name o n' a' s') = py_or n' a')
      by (unfold set_name; simpl;
          now rewrite (py_or_falsy_l _ _ Hn), (py_or_falsy_l _ _ Ha));
    assert (Hattr : attribute_name (set_name o n' a' s') = a')
      by (unfold set_name; simpl; now rewrite (py_or_falsy_l _ _ Ha));
    rewrite Hname, Hattr;
    (split;
     [ intros Hf; destruct (py_or_falsy _ _ Hf) as [_ Hfa];
       split; [auto|];
       destruct (py_or n' a') as [k|]; simpl in Hf |- *;
       [ destruct (String.eqb k ""); [eexists; reflexivity | discriminate Hf]
       | eexists; reflexivity ]
     | intros n Ht Hs; rewrite Hs in *; simpl in Ht;
       destruct (String.eqb n ""); [discriminate Ht | reflexivity] ]).
  destruct Hu as (Hn & Ha & Hi). simpl in Hn, Ha.
  destruct (IH Hi) as [IHf IHt].
  simpl opts_set_name. rewrite Field_name_collection.
  split.
  - intros Hf. destruct (IHf Hf) as (Hui & msg & Hmsg).
    destruct (py_or_falsy _ _ Hf) as [_ Hfa].
    split.
    + cbn [unnamed opts]. split; [|split; [|exact Hui]].
      * unfold set_name; simpl.
        now rewrite (py_or_falsy_l _ _ Hn), (py_or_falsy_l _ _ Ha).
      * unfold set_name; simpl. now rewrite (py_or_falsy_l _ _ Ha).
    + exists msg. now rewrite Hmsg.
  - intros n Ht Hs. rewrite (IHt n Ht Hs).
    rewrite Hs in Ht. simpl in Ht. now destruct (String.eqb n "").
Qed.

(** The names of a constructed field, and whether its name resolves. *)
Lemma built_names (kw : kwargs) (f : Field) :
  built kw f ->
  let given := py_or (kw_name kw) (kw_attribute_name kw) in
  name (opts f) = given /\
  attribute_name (opts f) = kw_attribute_name kw /\
  source (opts f) = py_or (kw_source kw) given /\
  (truthy given = false ->
   unnamed f /\ exists msg, Field_name f = Raise (FieldError msg)) /\
  (forall n, truthy given = true -> given = Some n -> Field_name f = Ok n).
Proof.
  induction 1 as [cls kw f Hf | ref nkw kw f Hf | v kw f Hf
                 | kw' inner u kw f Hb IH Hf]; intros given.
  1: apply new_field_inv in Hf.
  2: apply Nested_inv in Hf; destruct Hf as [x Hf].
  3: apply Static_inv in Hf.
  1, 2, 3: subst f; rewrite Field_name_own by (intros ? ? ? E; discriminate E);
    cbn [opts class_name unnamed with_read_only name attribute_name source];
    destruct (set_name_fresh kw (kw_name kw) (kw_attribute_name kw) (kw_source kw))
      as (Hn & Ha & Hs);
    rewrite ?Hn, ?Ha, ?Hs; fold given;
    (split; [reflexivity|]); (split; [reflexivity|]); (split; [reflexivity|]);
    (split;
     [ intros Hg; destruct (py_or_falsy _ _ Hg) as [_ Hga];
       split; [auto|];
       destruct given as [k|]; simpl in Hg |- *;
       [ destruct (String.eqb k ""); [eexists; reflexivity | discriminate Hg]
       | eexists; reflexivity ]
     | intros n Ht Hgn; rewrite Hgn in *; simpl in Ht;
       destruct (String.eqb n ""); [discriminate Ht | reflexivity] ]).
  apply Collection_inv in Hf. destruct Hf as [[msg Hmsg] Hf].
  destruct IH as (_ & _ & _ & IHf & IHt).
  assert (Hu : unnamed inner).
  { destruct (truthy (py_or (kw_name kw') (kw_attribute_name kw'))) eqn:Hg.
    - destruct (truthy_Some _ Hg) as (n & Hn & _).
      rewrite (IHt n eq_refl Hn) in Hmsg. discriminate Hmsg.
    - now destruct (IHf eq_refl). }
  apply (unnamed_with_is_wrapped inner true) in Hu.
  destruct (unnamed_set_name _ (kw_name kw) (kw_attribute_name kw) (kw_source kw) Hu)
    as [Hsf Hst].
  subst f. rewrite Field_name_collection. cbn [opts unnamed].
  destruct (set_name_fresh kw (kw_name kw) (kw_attribute_name kw) (kw_source kw))
    as (Hn & Ha & Hs).
  rewrite Hn, Ha, Hs. fold given.
  split; [reflexivity|]. split; [reflexivity|]. split; [reflexivity|].
  split.
  - intros Hg. destruct (Hsf Hg) as (Hui & m & Hm).
    destruct (py_or_falsy _ _ Hg) as [_ Hga].
    split; [auto|]. exists m. now rewrite Hm.
  - intros n Ht Hgn. rewrite (Hst n Ht Hgn).
    unfold given in *. rewrite Hgn in Ht. simpl in Ht. now destruct (String.eqb n "").
Qed.

(** C9. A name counts as given when it is a non-empty text (the
    truthiness the code tests with [or]). Every plain field can be built
    from any keyword arguments, and for every field a constructor builds
    ([Field], [String], ..., [Nested], [Static], or a [Collection] around
    a built field): [name] is the given name, and falls back to
    [attribute_name] when no name is given; [source] is the given source,
    and falls back to the resolved name when no source is given; with
    neither name nor attribute name given, reading [field.name] raises a
    field error, and otherwise it yields the resolved name. *)
Theorem name_resolution_fallback (kw : kwargs) :
  (forall cls, exists f, new_field cls kw = Ok f /\ built kw f) /\
  (forall f, built kw f ->
     let o := opts f in
     attribute_name o = kw_attribute_name kw /\
     (truthy (kw_name kw) = true -> name o = kw_name kw) /\
     (truthy (kw_name kw) = false -> name o = kw_attribute_name kw) /\
     (truthy (kw_source kw) = true -> source o = kw_source kw) /\
     (truthy (kw_source kw) = false -> source o = name o) /\
     (truthy (kw_name kw) = false -> truthy (kw_attribute_name kw) = false ->
      exists msg, Field_name f = Raise (FieldError msg)) /\
     (forall n, truthy (name o) = true -> name o = Some n -> Field_name f = Ok n)).
Proof.
  split.
  - intros cls. eexists. split.
    + unfold new_field, FieldOpts__init__, validate. simpl. reflexivity.
    + apply (built_plain cls).
      unfold new_field, FieldOpts__init__, validate. simpl. reflexivity.
  - intros f Hb o.
    destruct (built_names kw f Hb) as (Hn & Ha & Hs & Hf & Ht). fold o in Hn, Ha, Hs.
    split; [exact Ha|].
    split; [intros H; now rewrite Hn, (py_or_truthy_l _ _ H)|].
    split; [intros H; now rewrite Hn, (py_or_falsy_l _ _ H)|].
    split; [intros H; now rewrite Hs, (py_or_truthy_l _ _ H)|].
    split; [intros H; now rewrite Hs, Hn, (py_or_falsy_l _ _ H)|].
    split.
    + intros H1 H2. apply Hf. now rewrite (py_or_falsy_l _ _ H1).
    + intros n H1 H2. rewrite Hn in H1, H2. now apply Ht.
Qed.

(** [String(attribute_name='uid')] is named [uid] and reads from [uid];
    [Collection(String())], built without a name, has no name to read. *)
Lemma name_resolution_fallback_witness :
  let kw :=
    {| kw__is_wrapped := None; kw_name := None; kw_attribute_name := Some "uid";
       kw_source := None; kw_error_msgs := None; kw_required := None;
       kw_default := None; kw_null_default := None; kw_allow_none := None;
       kw_read_only := None; kw_choices := None |} in
  (exists f, new_field ClsString kw = Ok f /\
             name (opts f) = Some "uid" /\ source (opts f) = Some "uid" /\
             Field_name f = Ok "uid") /\
  (exists c msg, Collection (ArgField unnamed_string) None no_kwargs = Ok c /\
                 Field_name c = Raise (FieldError msg)).
Proof.
  intros kw. split.
  - destruct (proj1 (name_resolution_fallback kw) ClsString) as (f & Hc & Hb).
    destruct (proj2 (name_resolution_fallback kw) f Hb)
      as (_ & _ & Hn & _ & Hs & _ & Hr).
    pose proof (Hn eq_refl) as Hn'. simpl in Hn'.
    pose proof (Hs eq_refl) as Hs'.
    exists f. split; [exact Hc|]. split; [exact Hn'|].
    split; [now rewrite Hs'|].
    apply Hr; [now rewrite Hn' | exact Hn'].
  - eexists.
    assert (Hb : built no_kwargs
                   (FCollection
                      (set_name (FieldOpts_attrs no_kwargs) None None None)
                      (opts_set_name
                         (with_opts unnamed_string
                                    (with__is_wrapped (opts unnamed_string) true))
                         None None None) None)).
    { apply (built_collection no_kwargs unnamed_string None no_kwargs);
        [apply (built_plain ClsString); reflexivity | reflexivity]. }
    destruct (proj2 (name_resolution_fallback no_kwargs) _ Hb)
      as (_ & _ & _ & _ & _ & He & _).
    destruct (He eq_refl eq_refl) as [msg Hmsg].
    exists msg. split; [reflexivity | exact Hmsg].
Defined.

(** ** Collections *)

(** A collection constructed with a name: the wrapped field is marked
    [_is_wrapped] and receives the collection's name, the name of the
    collection resolves to it, and [get_data_from_name] hands every
    element value, null included, through for the wrapped field. *)
Theorem Collection_names_wrapped_field `{R : Renderer}
    (inner : Field) (unique_on : option string) (kw : kwargs) (c : Field) (n : string) :
  Collection (ArgField inner) unique_on kw = Ok c ->
  kw_name kw = Some n -> n <> "" ->
  exists o inner',
    c = FCollection o inner' unique_on /\
    _is_wrapped (opts inner') = true /\
    name o = Some n /\
    Field_name inner' = Ok n /\
    Field_name c = Ok n /\
    forall s, field s = inner' -> get_data_from_name s = Returns (data s) s.
Proof.
  intros Hc Hkw Hn. apply String.eqb_neq in Hn.
  unfold Collection, CollectionFieldOpts__init__, arg_name in Hc.
  destruct (Field_name inner) as [k | e] eqn:Hi; simpl in Hc; [discriminate|].
  destruct e; simpl in Hc; try discriminate.
  injection Hc as <-. rewrite Hkw.
  set (wrapped := with_opts inner (with__is_wrapped (opts inner) true)).
  assert (Hw : Field_name wrapped = Raise (FieldError msg)).
  { unfold wrapped. now rewrite Field_name_with_is_wrapped. }
  pose proof (opts_set_name_names wrapped _ n (kw_attribute_name kw) (kw_source kw) Hw Hn)
    as Hnamed.
  assert (Hmark : _is_wrapped
                    (opts (opts_set_name wrapped (Some n) (kw_attribute_name kw)
                                         (kw_source kw))) = true).
  { rewrite opts_set_name_is_wrapped. unfold wrapped. destruct inner; reflexivity. }
  eexists. eexists. split; [reflexivity|].
  split; [exact Hmark|].
  split; [now apply set_name_takes_name|].
  split; [exact Hnamed|].
  split.
  - rewrite Field_name_collection, Hnamed. now rewrite Hn.
  - intros s Hs. unfold get_data_from_name, pipe, Pipe__call__, Pipe_run. simpl.
    unfold get_data_from_name_func. rewrite Hs, Hmark.
    destruct (is_none (data s)); reflexivity.
Qed.

(** [Collection(String(), name='tags')] *)
Lemma Collection_names_wrapped_field_witness :
  exists c inner',
    Collection (ArgField unnamed_string) None (named_kwargs "tags") = Ok c /\
    Field_name c = Ok "tags" /\
    Field_name inner' = Ok "tags" /\
    get_data_from_name (start inner' (fresh_session VNone))
      = Returns VNone (start inner' (fresh_session VNone)).
Proof.
  destruct (Collection_names_wrapped_field unnamed_string None (named_kwargs "tags")
              _ "tags" eq_refl eq_refl
              (fun H : "tags" = "" => eq_ind "tags"
                 (fun t => match t with EmptyString => False | _ => True end) I "" H))
    as (o & inner' & Hc & _ & _ & Hi & Hn & Hg).
  eexists. exists inner'. split; [reflexivity|].
  split; [exact Hn|]. split; [exact Hi|].
  exact (Hg (start inner' (fresh_session VNone)) eq_refl).
Defined.

(** [Collection(Field(name='id'))] is refused. *)
Lemma Collection_rejects_named_field_witness :
  Collection (ArgField required_id) None no_kwargs
    = Raise (FieldError
               "name/attribute_name/source should not be passed to a wrapped field.").
Proof. exact (Collection_rejects_named_field required_id "id" None no_kwargs eq_refl). Defined.

(** ** Error messages *)

(** For a field built from keyword arguments whose name resolves to [n]:
    each of the six default error kinds has a template, the one passed
    for that kind in [error_msgs] or else the default one, so the lookup
    in [Field.get_error] does not fail; [Field.invalid] raises the
    validation signal carrying that template formatted with [n], or the
    exception raised by formatting it. A kind that has no template in
    either table raises [KeyError] for the kind. *)
Theorem invalid_uses_override_or_default `{R : Renderer}
    (cls : field_class) (kw : kwargs) (f : Field) (n : string) :
  new_field cls kw = Ok f ->
  Field_name f = Ok n ->
  (forall k t,
     DEFAULT_ERROR_MSGS !! k = Some t ->
     let used := from_option id t (pop (kw_error_msgs kw) extra_error_msgs !! k) in
     error_msgs (opts f) !! k = Some used /\
     (forall msg, format_name used n = Ok msg -> invalid f k = FieldInvalid msg f) /\
     (forall e, format_name used n = Raise e -> invalid f k = e)) /\
  (forall k,
     pop (kw_error_msgs kw) extra_error_msgs !! k = None ->
     DEFAULT_ERROR_MSGS !! k = None ->
     invalid f k = KeyError k).
Proof.
  intros Hf Hn.
  unfold new_field, FieldOpts__init__, validate in Hf. simpl in Hf.
  injection Hf as <-.
  split.
  - intros k t Hk used.
    assert (Hused : error_msgs
                      (opts (FPlain cls
                               (set_name (FieldOpts_attrs kw) (kw_name kw)
                                         (kw_attribute_name kw) (kw_source kw)))) !! k
                    = Some used).
    { cbn [opts set_name with_names error_msgs FieldOpts_attrs]. unfold used.
      destruct (pop (kw_error_msgs kw) extra_error_msgs !! k) as [t'|] eqn:E; simpl.
      - now apply lookup_union_Some_l.
      - rewrite lookup_union_r by exact E. exact Hk. }
    split; [exact Hused|]. split.
    + intros msg Hm. now apply (invalid_FieldInvalid _ n k used msg).
    + intros e He. now apply (invalid_format_error _ n k used e).
  - intros k Ho Hd. unfold invalid, get_error. rewrite Hn. simpl.
    rewrite lookup_union_r by exact Ho. now rewrite Hd.
Qed.

(** [String(name='user', error_msgs={'required': '{name} is missing',
    'type_error': '{field} is wrong'})]: an overriding template that
    formats, the default one, an overriding template whose formatting
    raises, and an unknown kind. *)
Lemma invalid_uses_override_or_default_witness :
  let kw :=
    {| kw__is_wrapped := None; kw_name := Some "user"; kw_attribute_name := None;
       kw_source := None;
       kw_error_msgs :=
         Some (<[ "type_error" := "{field} is wrong" ]>
                 {[ "required" := "{name} is missing" ]});
       kw_required := None; kw_default := None; kw_null_default := None;
       kw_allow_none := None; kw_read_only := None; kw_choices := None |} in
  exists f,
    new_field ClsString kw = Ok f /\
    invalid f "required" = FieldInvalid "user is missing" f /\
    invalid f "not_found" = FieldInvalid "user not found" f /\
    invalid f "type_error" = KeyError "field" /\
    invalid f "no_such_kind" = KeyError "no_such_kind".
Proof.
  intros kw. eexists. split; [reflexivity|].
  match goal with
  | |- invalid ?f _ = _ /\ _ =>
      pose proof (invalid_uses_override_or_default ClsString kw f "user" eq_refl eq_refl)
        as [Hd Hk]
  end.
  split; [|split; [|split]].
  - exact (proj1 (proj2 (Hd "required" "This is a required field" eq_refl))
             "user is missing" eq_refl).
  - exact (proj1 (proj2 (Hd "not_found" "{name} not found" eq_refl))
             "user not found" eq_refl).
  - exact (proj2 (proj2 (Hd "type_error" "Invalid type" eq_refl))
             (KeyError "field") eq_refl).
  - exact (Hk "no_such_kind" eq_refl eq_refl).
Defined.

(** The name is resolved before the message is looked up: on a field
    whose name does not resolve, a value that fails the choice check
    raises the naming error of [Field.name] instead of the invalid-choice
    error. *)
Theorem is_valid_choice_unnamed_field `{R : Renderer}
    (session : Session) (cs : list value) (e : exn Field) :
  Field_name (field session) = Raise e ->
  choices (opts (field session)) = Some cs ->
  data session <> VNone ->
  py_in (data session) cs = false ->
  is_valid_choice session = Raises e session.
Proof.
  intros Hn Hcs Hd Hin. unfold is_valid_choice.
  rewrite (pipe_on_data _ _ _ Hd). unfold is_valid_choice_func.
  rewrite Hcs, Hin. simpl. unfold invalid, get_error. now rewrite Hn.
Qed.

(** [String(choices=['a'])] without a name, on the data ['b']. *)
Lemma is_valid_choice_unnamed_field_witness :
  let f :=
    FPlain ClsString
      (set_name
         (FieldOpts_attrs
            {| kw__is_wrapped := None; kw_name := None; kw_attribute_name := None;
               kw_source := None; kw_error_msgs := None; kw_required := None;
               kw_default := None; kw_null_default := None; kw_allow_none := None;
               kw_read_only := None; kw_choices := Some [VStr "a"] |})
         None None None) in
  let s := mkSession f (VStr "b") (VDict []) None (fresh_session VNone) in
  is_valid_choice s = Raises (missing_name "String") s.
Proof.
  intros f s.
  apply (is_valid_choice_unnamed_field s [VStr "a"] (missing_name "String")
           eq_refl eq_refl).
  - intros H. discriminate H.
  - reflexivity.
Defined.

(** ** What the pipes leave untouched *)

Lemma keeps_session_keeps_output (p : Session -> outcome) :
  keeps_session p -> keeps_output p.
Proof. intros H s. now rewrite H. Qed.

(** Decoration preserves both frames: a skipped pipe changes nothing. *)
Lemma pipe_keeps_session (b : bool) (f : Session -> outcome) :
  keeps_session f -> keeps_session (pipe b f).
Proof.
  intros H s. unfold pipe, Pipe__call__, Pipe_run. simpl.
  destruct (is_none (data s)); simpl; [destruct b; simpl|]; auto.
Qed.

Lemma pipe_keeps_output (b : bool) (f : Session -> outcome) :
  keeps_output f -> keeps_output (pipe b f).
Proof.
  intros H s. unfold pipe, Pipe__call__, Pipe_run. simpl.
  destruct (is_none (data s)); simpl; [destruct b; simpl|]; auto.
Qed.

Lemma is_valid_choice_keeps_session `{R : Renderer} : keeps_session is_valid_choice.
Proof.
  apply pipe_keeps_session. intros s. unfold is_valid_choice_func.
  destruct (choices (opts (field s))) as [cs|]; [|reflexivity].
  destruct (py_in (data s) cs); reflexivity.
Qed.

Lemma read_only_keeps_session : keeps_session KimPipelinesBase.read_only.
Proof.
  apply pipe_keeps_session. intros s. unfold read_only_func.
  destruct (KimField.read_only (opts (field s))); reflexivity.
Qed.

Lemma is_valid_string_keeps `{R : Renderer} (text_type : value -> option string) :
  keeps_session (is_valid_string text_type).
Proof.
  apply pipe_keeps_session. intros s. unfold is_valid_string_func.
  destruct (text_type (data s)); reflexivity.
Qed.

Lemma get_data_from_name_keeps_output `{R : Renderer} : keeps_output get_data_from_name.
Proof.
  apply pipe_keeps_output. intros s. unfold get_data_from_name_func.
  destruct (_is_wrapped (opts (field s))); [reflexivity|].
  destruct (Field_name (field s)) as [n|e]; [|reflexivity].
  destruct (is_none (attr_or_key (data s) n)); [|reflexivity].
  destruct (required (opts (field s)) && is_none (default (opts (field s))));
    [reflexivity|].
  destruct (negb (is_none (default (opts (field s))))); [reflexivity|].
  destruct (negb (allow_none (opts (field s)))); reflexivity.
Qed.

Lemma is_valid_datetime_keeps_output `{R : Renderer} (parse_date : value -> option value) :
  keeps_output (is_valid_datetime parse_date).
Proof.
  apply pipe_keeps_output. intros s. unfold is_valid_datetime_func.
  destruct (negb (is_none (data s))); [|reflexivity].
  destruct (parse_date (data s)); reflexivity.
Qed.

(** A run of pipes that each keep the output keeps the output. *)
Lemma run_pipes_keeps_output (pipes : list (Session -> outcome)) :
  Forall keeps_output pipes ->
  forall s, output (session_of (run_pipes pipes s)) = output s.
Proof.
  induction 1 as [|p rest Hp _ IH]; intros s; simpl; [reflexivity|].
  pose proof (Hp s) as Hs.
  destruct (p s) as [v s'|e s']; simpl in *; [|exact Hs].
  now rewrite IH.
Qed.

(** When the output pipe raises, it has not written. *)
Lemma update_output_to_name_raises_unchanged (s s' : Session) (e : exn Field) :
  update_output_to_name s = Raises e s' -> s' = s.
Proof.
  unfold update_output_to_name. rewrite pipe_run_if_none.
  unfold update_output_to_name_func.
  destruct (Field_name (field s)) as [n|e0]; [|intros H; now injection H].
  destruct (setattr (output s) n (data s)) as [o|e1]; [discriminate|].
  destruct e1; try (intros H; now injection H).
  destruct (setitem (output s) n (data s)) as [o|e2]; [discriminate|].
  destruct e2; intros H; now injection H.
Qed.

(** A pipeline that writes only in a final [update_output_to_name]: when
    its run raises, the output target is as it was before the run. *)
Lemma run_raises_output_unchanged
    (self : Pipeline) (pre : list (Session -> outcome))
    (ms : MapperSession) (f : Field) (parent_session : option Session)
    (e : exn Field) (out : value) :
  chain self = (pre ++ [update_output_to_name])%list ->
  Forall keeps_output pre ->
  run self ms f parent_session = Raised e out ->
  out = ms_output ms.
Proof.
  intros Hchain Hpre. unfold run. rewrite Hchain, run_pipes_app.
  pose proof (run_pipes_keeps_output pre Hpre
                (mkSession f (ms_data ms) (ms_output ms) parent_session ms)) as Hout.
  destruct (run_pipes pre _) as [v s1|e1 s1]; simpl in Hout.
  - simpl. destruct (update_output_to_name s1) as [v2 s2|e2 s2] eqn:Hu; [discriminate|].
    apply update_output_to_name_raises_unchanged in Hu. subst s2.
    destruct e2; intros H; try discriminate H; injection H as _ <-; exact Hout.
  - destruct e1; intros H; try discriminate H; injection H as _ <-; exact Hout.
Qed.

(** A failing field has written nothing: whenever the marshal pipeline of
    a plain, string or date-time field raises, the output target is in
    the state it had before the run. *)
Theorem marshal_failure_leaves_output `{R : Renderer}
    (text_type : value -> option string) (parse_date : value -> option value)
    (p : Pipeline) (ms : MapperSession) (f : Field) (parent_session : option Session)
    (e : exn Field) (out : value) :
  In p [MarshalPipeline; StringMarshalPipeline text_type;
        DateTimeMarshalPipeline parse_date] ->
  run p ms f parent_session = Raised e out ->
  out = ms_output ms.
Proof.
  intros Hin.
  destruct Hin as [<- | [<- | [<- | []]]].
  - apply (run_raises_output_unchanged _ [get_data_from_name; KimPipelinesBase.read_only]);
      [reflexivity|].
    repeat constructor.
    + apply get_data_from_name_keeps_output.
    + apply keeps_session_keeps_output, read_only_keeps_session.
  - apply (run_raises_output_unchanged _
             [get_data_from_name; is_valid_string text_type; is_valid_choice;
              KimPipelinesBase.read_only]); [reflexivity|].
    repeat constructor.
    + apply get_data_from_name_keeps_output.
    + apply keeps_session_keeps_output, is_valid_string_keeps.
    + apply keeps_session_keeps_output, is_valid_choice_keeps_session.
    + apply keeps_session_keeps_output, read_only_keeps_session.
  - apply (run_raises_output_unchanged _
             [get_data_from_name; is_valid_datetime parse_date; is_valid_choice;
              KimPipelinesBase.read_only]); [reflexivity|].
    repeat constructor.
    + apply get_data_from_name_keeps_output.
    + apply is_valid_datetime_keeps_output.
    + apply keeps_session_keeps_output, is_valid_choice_keeps_session.
    + apply keeps_session_keeps_output, read_only_keeps_session.
Qed.

(** A required string field on [{'name': 'bob'}] with a non-empty output. *)
Lemma marshal_failure_leaves_output_witness :
  let ms := {| ms_mapper := VNone; ms_data := bob; ms_output := VDict [("k", VInt 1)] |} in
  let f := string_id None in
  run (StringMarshalPipeline text_of_text) ms f None
    = Raised (FieldInvalid "This is a required field" f) (VDict [("k", VInt 1)]) /\
  VDict [("k", VInt 1)] = ms_output ms.
Proof.
  intros ms f. split; [reflexivity|].
  apply (marshal_failure_leaves_output text_of_text parse_text
           (StringMarshalPipeline text_of_text) ms f None
           (FieldInvalid "This is a required field" f) (VDict [("k", VInt 1)])).
  - right. left. reflexivity.
  - reflexivity.
Defined.

(** ** Single steps of a marshal run *)

Lemma get_data_from_name_settles `{R : Renderer} (s : Session) (n : string) :
  _is_wrapped (opts (field s)) = false ->
  data s <> VNone ->
  Field_name (field s) = Ok n ->
  settled (opts (field s)) (data s) n <> VNone ->
  get_data_from_name s
    = Returns (settled (opts (field s)) (data s) n)
              (with_data s (settled (opts (field s)) (data s) n)).
Proof.
  intros Hw Hd Hn Hs. unfold get_data_from_name. rewrite (pipe_on_data _ _ _ Hd).
  unfold get_data_from_name_func. rewrite Hw, Hn.
  unfold settled in *. cbv zeta.
  destruct (is_none (attr_or_key (data s) n)); [|reflexivity].
  apply is_none_false in Hs. rewrite Hs, andb_false_r. reflexivity.
Qed.


Lemma is_valid_string_returns `{R : Renderer}
    (text_type : value -> option string) (s : Session) (t : string) :
  data s <> VNone -> text_type (data s) = Some t ->
  is_valid_string text_type s = Returns (VStr t) s.
Proof.
  intros Hd Ht. unfold is_valid_string. rewrite (pipe_on_data _ _ _ Hd).
  unfold is_valid_string_func. now rewrite Ht.
Qed.




(** ** Marshaling a string field, end to end *)





(** ** Read-only fields whose value is there *)

(** On non-null raw input, for a field that is required or whose value
    is present, [get_data_from_name] returns only with non-null data. *)
Lemma get_data_from_name_returns_data `{R : Renderer} (s : Session) (v : value) (s1 : Session) :
  data s <> VNone ->
  required (opts (field s)) = true \/
    (exists n, Field_name (field s) = Ok n /\ attr_or_key (data s) n <> VNone) ->
  get_data_from_name s = Returns v s1 ->
  data s1 <> VNone /\ output s1 = output s /\ field s1 = field s.
Proof.
  intros Hd Hp. unfold get_data_from_name. rewrite (pipe_on_data _ _ _ Hd).
  unfold get_data_from_name_func. cbv zeta.
  destruct (_is_wrapped (opts (field s))).
  { intros H. injection H as _ <-. auto. }
  destruct (Field_name (field s)) as [n|e] eqn:Hn; [|discriminate].
  destruct (is_none (attr_or_key (data s) n)) eqn:Hv.
  - destruct (is_none (default (opts (field s)))) eqn:Hdef.
    + rewrite andb_true_r. simpl.
      destruct (required (opts (field s))) eqn:Hreq; [discriminate|].
      exfalso. destruct Hp as [Hp | (n' & Hn' & Hp)]; [discriminate|].
      injection Hn' as <-. apply is_none_false in Hp. congruence.
    + rewrite andb_false_r. simpl.
      intros H. injection H as _ <-. simpl.
      apply is_none_false in Hdef. auto.
  - intros H. injection H as _ <-. simpl. apply is_none_false in Hv. auto.
Qed.

(** Pipes that keep the session, run in a row, keep the session. *)
Lemma run_pipes_keeps_session (pipes : list (Session -> outcome)) :
  Forall keeps_session pipes ->
  forall s, session_of (run_pipes pipes s) = s.
Proof.
  induction 1 as [|p rest Hp _ IH]; intros s; simpl; [reflexivity|].
  pose proof (Hp s) as Hs.
  destruct (p s) as [v s'|e s']; simpl in Hs; subst s'; [apply IH | reflexivity].
Qed.

(** A pipeline that extracts by name, validates without touching the
    session, then checks [read_only] before it writes. *)
Lemma read_only_chain_keeps_output `{R : Renderer}
    (self : Pipeline) (mids : list (Session -> outcome))
    (ms : MapperSession) (f : Field) (parent_session : option Session) :
  chain self
    = (get_data_from_name :: mids
         ++ [KimPipelinesBase.read_only; update_output_to_name])%list ->
  Forall keeps_session mids ->
  KimField.read_only (opts f) = true ->
  ms_data ms <> VNone ->
  required (opts f) = true \/
    (exists n, Field_name f = Ok n /\ attr_or_key (ms_data ms) n <> VNone) ->
  output_of (run self ms f parent_session) = ms_output ms.
Proof.
  intros Hchain Hmids Hro Hd Hp. unfold run. rewrite Hchain.
  set (s0 := mkSession f (ms_data ms) (ms_output ms) parent_session ms).
  cbn [run_pipes].
  pose proof (get_data_from_name_keeps_output s0) as Hk.
  destruct (get_data_from_name s0) as [v s1|e s1] eqn:Hg; simpl in Hk.
  - destruct (get_data_from_name_returns_data s0 v s1 Hd Hp Hg) as (Hd1 & Ho1 & Hf1).
    rewrite run_pipes_app.
    pose proof (run_pipes_keeps_session mids Hmids s1) as Hs.
    destruct (run_pipes mids s1) as [v2 s2|e2 s2]; simpl in Hs; subst s2.
    + cbn [run_pipes].
      rewrite (read_only_stops_on_data s1 Hd1) by (now rewrite Hf1).
      simpl. exact Ho1.
    + destruct e2; simpl; exact Ho1.
  - destruct e; simpl; exact Hk.
Qed.

(** A read-only plain or string field never writes a value that is
    there: on non-null raw input, when the field is required or the raw
    input has a non-null value under its name, the output target is after
    the run, however it ends, what it was before. *)
Theorem read_only_marshal_keeps_output `{R : Renderer}
    (text_type : value -> option string) (p : Pipeline)
    (ms : MapperSession) (f : Field) (parent_session : option Session) :
  In p [MarshalPipeline; StringMarshalPipeline text_type] ->
  KimField.read_only (opts f) = true ->
  ms_data ms <> VNone ->
  required (opts f) = true \/
    (exists n, Field_name f = Ok n /\ attr_or_key (ms_data ms) n <> VNone) ->
  output_of (run p ms f parent_session) = ms_output ms.
Proof.
  intros Hin. destruct Hin as [<- | [<- | []]].
  - apply (read_only_chain_keeps_output _ []); [reflexivity | constructor].
  - apply (read_only_chain_keeps_output _ [is_valid_string text_type; is_valid_choice]);
      [reflexivity|].
    repeat constructor.
    + apply is_valid_string_keeps.
    + apply is_valid_choice_keeps_session.
Qed.

(** [String(name='id', read_only=True)] on [{'id': 2}], writing into [{'k': 1}]. *)
Lemma read_only_marshal_keeps_output_witness :
  let ms :=
    {| ms_mapper := VNone; ms_data := VDict [("id", VInt 2)];
       ms_output := VDict [("k", VInt 1)] |} in
  output_of (run (StringMarshalPipeline text_of_text) ms read_only_string_id None)
    = VDict [("k", VInt 1)].
Proof.
  intros ms.
  apply (read_only_marshal_keeps_output text_of_text (StringMarshalPipeline text_of_text)
           ms read_only_string_id None).
  - right. left. reflexivity.
  - reflexivity.
  - intros H. discriminate H.
  - left. reflexivity.
Defined.

(** A [Static] field is read-only whatever keywords it was built with,
    [read_only=False] included, and marshaling through it never writes a
    value that is there. *)
Theorem Static_marshal_keeps_output `{R : Renderer}
    (text_type : value -> option string) (parse_date : value -> option value)
    (v : value) (kw : kwargs) (f : Field)
    (ms : MapperSession) (parent_session : option Session) :
  Static v kw = Ok f ->
  ms_data ms <> VNone ->
  required (opts f) = true \/
    (exists n, Field_name f = Ok n /\ attr_or_key (ms_data ms) n <> VNone) ->
  KimField.read_only (opts f) = true /\
  exists r,
    marshal text_type parse_date f ms parent_session = Some r /\
    output_of r = ms_output ms.
Proof.
  intros Hf Hd Hp.
  unfold Static, FieldOpts__init__, validate in Hf. simpl in Hf. injection Hf as <-.
  split; [reflexivity|].
  eexists. split; [reflexivity|].
  apply (read_only_chain_keeps_output _ []); [reflexivity | constructor | reflexivity | | ];
    assumption.
Qed.

(** [Static('user', name='object_type', read_only=False)] on
    [{'object_type': 'post'}]. *)
Lemma Static_marshal_keeps_output_witness :
  let kw :=
    {| kw__is_wrapped := None; kw_name := Some "object_type"; kw_attribute_name := None;
       kw_source := None; kw_error_msgs := None; kw_required := None;
       kw_default := None; kw_null_default := None; kw_allow_none := None;
       kw_read_only := Some false; kw_choices := None |} in
  exists f r,
    Static (VStr "user") kw = Ok f /\
    KimField.read_only (opts f) = true /\
    marshal text_of_text parse_text f
            (fresh_session (VDict [("object_type", VStr "post")])) None = Some r /\
    output_of r = VDict [].
Proof.
  intros kw. eexists. 
  match goal with
  | |- exists r, Static _ _ = Ok ?f /\ _ =>
      destruct (Static_marshal_keeps_output text_of_text parse_text (VStr "user") kw f
                  (fresh_session (VDict [("object_type", VStr "post")])) None eq_refl
                  (fun H => eq_ind (VDict [("object_type", VStr "post")])
                     (fun v => match v with VNone => False | _ => True end) I VNone H)
                  (or_introl eq_refl))
        as (Hro & r & Hm & Hout)
  end.
  exists r. split; [reflexivity|]. split; [exact Hro|]. split; [exact Hm | exact Hout].
Defined.

(** ** Marshaling a date-time field, end to end *)



(** ** Rejected values *)

(** A string field that is not wrapped, on a non-null raw input, with [w]
    the non-null value settled on by the input pipe and templates that
    format: if [w] has no text the type error is raised; if it has one
    but [w] itself is not among the configured choices the invalid-choice
    error is raised; the output is untouched in both cases, read-only or
    not. *)
Theorem String_marshal_rejects `{R : Renderer}
    (text_type : value -> option string) (ms : MapperSession) (f : Field)
    (parent_session : option Session) (n : string) :
  let w := settled (opts f) (ms_data ms) n in
  _is_wrapped (opts f) = false ->
  ms_data ms <> VNone ->
  Field_name f = Ok n ->
  w <> VNone ->
  (forall t msg,
     text_type w = None -> error_msgs (opts f) !! "type_error" = Some t ->
     format_name t n = Ok msg ->
     run (StringMarshalPipeline text_type) ms f parent_session
       = Raised (FieldInvalid msg f) (ms_output ms)) /\
  (forall txt cs t msg,
     text_type w = Some txt -> choices (opts f) = Some cs -> py_in w cs = false ->
     error_msgs (opts f) !! "invalid_choice" = Some t ->
     format_name t n = Ok msg ->
     run (StringMarshalPipeline text_type) ms f parent_session
       = Raised (FieldInvalid msg f) (ms_output ms)).
Proof.
  intros w Hw Hd Hn Hnn. unfold run.
  cbn [chain StringMarshalPipeline MarshalPipeline input_pipes validation_pipes
       process_pipes output_pipes app run_pipes].
  set (s0 := mkSession f (ms_data ms) (ms_output ms) parent_session ms).
  rewrite (get_data_from_name_settles s0 n Hw Hd Hn Hnn).
  change (settled (opts (field s0)) (data s0) n) with w.
  split.
  - intros t msg Ht Hm Hf.
    unfold is_valid_string. rewrite (pipe_on_data _ _ (with_data s0 w) Hnn).
    unfold is_valid_string_func. cbn [data with_data]. rewrite Ht.
    cbn [field with_data s0].
    now rewrite (invalid_FieldInvalid f n "type_error" t msg Hn Hm Hf).
  - intros txt cs t msg Ht Hcs Hin Hm Hf.
    rewrite (is_valid_string_returns text_type (with_data s0 w) txt Hnn Ht).
    unfold is_valid_choice. rewrite (pipe_on_data _ _ (with_data s0 w) Hnn).
    unfold is_valid_choice_func. cbn [field data with_data s0].
    rewrite Hcs, Hin. cbn [negb].
    now rewrite (invalid_FieldInvalid f n "invalid_choice" t msg Hn Hm Hf).
Qed.

(** [String(name='id')] on [{'id': 2}] with a conversion that has no text
    for integers; [String(name='id', choices=['a'])] on [{'id': 'b'}]. *)
Lemma String_marshal_rejects_witness :
  run (StringMarshalPipeline text_of_text) (fresh_session (VDict [("id", VInt 2)]))
      (string_id None) None
    = Raised (FieldInvalid "Invalid type" (string_id None)) (VDict []) /\
  run (StringMarshalPipeline text_of_text) (fresh_session (VDict [("id", VStr "b")]))
      choice_id None
    = Raised (FieldInvalid "invalid choice" choice_id) (VDict []).
Proof.
  split.
  - apply (proj1 (String_marshal_rejects text_of_text
                    (fresh_session (VDict [("id", VInt 2)])) (string_id None) None "id"
                    eq_refl
                    (fun H => eq_ind (VDict [("id", VInt 2)])
                       (fun v => match v with VNone => False | _ => True end) I VNone H)
                    eq_refl
                    (fun H => eq_ind (VInt 2)
                       (fun v => match v with VNone => False | _ => True end) I VNone H))
             "Invalid type" "Invalid type" eq_refl eq_refl eq_refl).
  - apply (proj2 (String_marshal_rejects text_of_text
                    (fresh_session (VDict [("id", VStr "b")])) choice_id None "id"
                    eq_refl
                    (fun H => eq_ind (VDict [("id", VStr "b")])
                       (fun v => match v with VNone => False | _ => True end) I VNone H)
                    eq_refl
                    (fun H => eq_ind (VStr "b")
                       (fun v => match v with VNone => False | _ => True end) I VNone H))
             "b" [VStr "a"] "invalid choice" "invalid choice"
             eq_refl eq_refl eq_refl eq_refl eq_refl).
Defined.

(** ** What a pipe returns *)

Lemma run_pipes_returning (v : value) (pipes : list (Session -> outcome)) (s : Session) :
  run_pipes (map (returning v) pipes) s = run_pipes pipes s.
Proof.
  revert s. induction pipes as [|p rest IH]; intros s; simpl; [reflexivity|].
  unfold returning at 1. destruct (p s) as [v' s'|e s']; [apply IH | reflexivity].
Qed.

(** [Pipeline.run] drops what its pipes return: replacing the returned
    value of every pipe by any other value changes nothing about the run.
    A pipe acts on later pipes only through the session. *)
Theorem Pipeline_run_ignores_returned_values
    (v : value) (self : Pipeline) (ms : MapperSession) (f : Field)
    (parent_session : option Session) :
  run (all_returning v self) ms f parent_session = run self ms f parent_session.
Proof.
  unfold run, chain, all_returning. simpl.
  rewrite <- !map_app. now rewrite run_pipes_returning.
Qed.
